(** * Bounded span encoder: a shallow embedding of [protoFromSpanData]

    The Go package [stackdriver] turns a recorded [trace.SpanData] into the
    size- and count-limited wire message [tracepb.Span].  This development
    embeds the conversion ([protoFromSpanData], [copyAttributes], [trunc],
    [clip32], [timestampProto]) together with the part of the Go standard
    library it relies on ([unicode/utf8.DecodeLastRune]), and states the
    properties of the encoder over that embedding.

    Conventions.
    - A Go [string] and a Go [[]byte] are both [list byte]; the conversions
      [[]byte(s)] and [string(b)] are the identity.
    - Go's [int] is the 64-bit machine integer.  It is modelled by [Z]; every
      [int] computed below is a length, an index or a difference of two
      lengths, all of which stay inside the 64-bit range.  The narrowing
      conversion [int32(x)] and the arithmetic on [int32] variables are
      written out with their wrap-around ([int32]).
    - A run-time panic (slice bounds out of range, write to a nil map) is the
      outcome [Panic]; a loop that is given fuel reports [OutOfFuel] when the
      fuel is exhausted.  Both are shown to be unreachable where the encoder
      is claimed to return. *)

From Stdlib Require Import ZArith List Lia Bool.
From Stdlib Require Import Strings.Byte Strings.String.
From stdpp Require Import base option list countable gmap fin_maps.

Local Open Scope Z_scope.

(** ** Outcomes of a Go call *)

Inductive result (A : Type) : Type :=
| Ok (a : A)
| Panic
| OutOfFuel.

Arguments Ok {A} a.
Arguments Panic {A}.
Arguments OutOfFuel {A}.

Global Instance result_ret : MRet result := @Ok.

Global Instance result_bind : MBind result := λ A B f r,
  match r with
  | Ok a => f a
  | Panic => Panic
  | OutOfFuel => OutOfFuel
  end.

(** ** Byte strings and machine integers *)

Abbreviation gostring := (list byte).

(** [len(s)] *)
Definition len {A : Type} (s : list A) : Z := Z.of_nat (length s).

(** The numeric value of a byte, as Go's [rune(b)] or [int(b)] gives it. *)
Definition byteZ (b : byte) : Z := Z.of_N (Byte.to_N b).

(** A string literal of the source. *)
Definition lit (s : string) : gostring := list_byte_of_string s.

(** [s[:hi]]: panics unless [0 <= hi <= len(s)]. *)
Definition sliceTo {A : Type} (s : list A) (hi : Z) : result (list A) :=
  if (hi <? 0) || (len s <? hi) then Panic else Ok (take (Z.to_nat hi) s).

Definition MinInt32 : Z := -2147483648.
Definition MaxInt32 : Z := 2147483647.

(** The conversion [int32(x)]: the low 32 bits of [x], read as a signed
    number. *)
Definition int32 (x : Z) : Z := (x + 2147483648) mod 4294967296 - 2147483648.

(** [clip32] clips an int to the range of an int32. *)
Definition clip32 (x : Z) : Z :=
  if x <? MinInt32 then MinInt32
  else if x >? MaxInt32 then MaxInt32
  else int32 x.

(** ** [unicode/utf8]

    Modelled from the spec: [utf8.DecodeLastRune] is a function of the Go
    standard library and is not among the repository's sources; the spec only
    names its effect (section 4.2: the tail "forms an incomplete multi-byte
    character").  The definitions of this module transcribe
    [unicode/utf8/utf8.go] of the Go distribution: its constants, the [first]
    and [acceptRanges] tables, [RuneStart], [DecodeRune] and
    [DecodeLastRune]. *)

Module utf8.

Definition RuneError : Z := 0xFFFD.
Definition RuneSelf : Z := 0x80.
Definition UTFMax : Z := 4.

Definition maskx : Z := 0x3F.
Definition mask2 : Z := 0x1F.
Definition mask3 : Z := 0x0F.
Definition mask4 : Z := 0x07.

Definition locb : Z := 0x80.
Definition hicb : Z := 0xBF.

(** Information about the first byte of an encoding: the high four bits
    index [acceptRanges], the low three bits give the size. *)
Definition xx : Z := 0xF1.
Definition as_ : Z := 0xF0.
Definition s1 : Z := 0x02.
Definition s2 : Z := 0x13.
Definition s3 : Z := 0x03.
Definition s4 : Z := 0x23.
Definition s5 : Z := 0x34.
Definition s6 : Z := 0x04.
Definition s7 : Z := 0x44.

Definition first : list Z :=
  repeat as_ 128                      (* 0x00-0x7F *)
  ++ repeat xx 64                     (* 0x80-0xBF *)
  ++ [xx; xx] ++ repeat s1 14         (* 0xC0-0xCF *)
  ++ repeat s1 16                     (* 0xD0-0xDF *)
  ++ [s2] ++ repeat s3 12 ++ [s4; s3; s3]   (* 0xE0-0xEF *)
  ++ [s5; s6; s6; s6; s7] ++ repeat xx 11.  (* 0xF0-0xFF *)

Record acceptRange := { lo : Z; hi : Z }.

Definition acceptRanges : list acceptRange :=
  [ {| lo := locb; hi := hicb |};
    {| lo := 0xA0; hi := hicb |};
    {| lo := locb; hi := 0x9F |};
    {| lo := 0x90; hi := hicb |};
    {| lo := locb; hi := 0x8F |} ]
  ++ repeat {| lo := 0; hi := 0 |} 11.

(** [p[i]] for an index the library has already checked. *)
Definition at_ (p : list byte) (i : Z) : Z := byteZ (nth (Z.to_nat i) p x00).

(** [RuneStart] reports whether the byte could be the first byte of an
    encoded, possibly invalid rune. *)
Definition RuneStart (b : Z) : bool := negb (Z.land b 0xC0 =? 0x80).

Definition DecodeRune (p : list byte) : Z * Z :=
  let n := len p in
  if n <? 1 then (RuneError, 0) else
  let p0 := at_ p 0 in
  let x := nth (Z.to_nat p0) first xx in
  if x >=? as_ then
    let mask := Z.shiftr (int32 (Z.shiftl x 31)) 31 in
    (Z.lor (Z.land p0 (Z.lnot mask)) (Z.land RuneError mask), 1)
  else
  let sz := Z.land x 7 in
  let accept := nth (Z.to_nat (Z.shiftr x 4)) acceptRanges {| lo := 0; hi := 0 |} in
  if n <? sz then (RuneError, 1) else
  let b1 := at_ p 1 in
  if (b1 <? lo accept) || (hi accept <? b1) then (RuneError, 1) else
  if sz <=? 2 then
    (Z.lor (Z.shiftl (Z.land p0 mask2) 6) (Z.land b1 maskx), 2)
  else
  let b2 := at_ p 2 in
  if (b2 <? locb) || (hicb <? b2) then (RuneError, 1) else
  if sz <=? 3 then
    (Z.lor (Z.lor (Z.shiftl (Z.land p0 mask3) 12) (Z.shiftl (Z.land b1 maskx) 6))
           (Z.land b2 maskx), 3)
  else
  let b3 := at_ p 3 in
  if (b3 <? locb) || (hicb <? b3) then (RuneError, 1) else
  (Z.lor (Z.lor (Z.lor (Z.shiftl (Z.land p0 mask4) 18) (Z.shiftl (Z.land b1 maskx) 12))
                (Z.shiftl (Z.land b2 maskx) 6))
         (Z.land b3 maskx), 4).

(** The backwards scan of [DecodeLastRune]:
    [for start--; start >= lim; start-- { if RuneStart(p[start]) { break } }],
    entered after the first decrement.  [lim] is at most [UTFMax] below the
    end, so the body runs at most three times. *)
Fixpoint scanBack (fuel : nat) (p : list byte) (start lim : Z) : Z :=
  match fuel with
  | O => start
  | S fuel' =>
      if start >=? lim then
        if RuneStart (at_ p start) then start
        else scanBack fuel' p (start - 1) lim
      else start
  end.

Definition DecodeLastRune (p : list byte) : Z * Z :=
  let end_ := len p in
  if end_ =? 0 then (RuneError, 0) else
  let start := end_ - 1 in
  let r := at_ p start in
  if r <? RuneSelf then (r, 1) else
  let lim := end_ - UTFMax in
  let lim := if lim <? 0 then 0 else lim in
  let start := scanBack (Z.to_nat UTFMax) p (start - 1) lim in
  let start := if start <? 0 then 0 else start in
  let '(r, size) := DecodeRune (drop (Z.to_nat start) p) in
  if negb (start + size =? end_) then (RuneError, 1) else (r, size).

End utf8.

(** ** The wire messages ([tracepb], [timestamppb], [statuspb])

    Modelled from the spec: the generated protocol-buffer types are declared
    outside the repository's sources.  Each message is a record with the
    fields the encoder writes (spec, section 3, "Output wire span"); a field
    of pointer type is an [option], [None] being the nil pointer, and a
    [oneof] is an inductive type. *)

Global Instance byte_eq_dec : EqDecision byte := Byte.byte_eq_dec.

Global Instance byte_countable : Countable byte :=
  inj_countable Byte.to_N Byte.of_N Byte.of_to_N.

Module timestamppb.
Module Timestamp.
Record t := { Seconds : Z; Nanos : Z }.
End Timestamp.
End timestamppb.

Module statuspb.
Module Status.
Record t := { Code : Z; Message : gostring }.
End Status.
End statuspb.

Module tracepb.

Module TruncatableString.
Record t := { Value : gostring; TruncatedByteCount : Z }.
End TruncatableString.

Module AttributeValue.
Inductive t :=
| BoolValue (b : bool)
| IntValue (i : Z)
| StringValue (s : TruncatableString.t).
End AttributeValue.

Module Span_Attributes.
Record t := {
  AttributeMap : option (gmap gostring AttributeValue.t);
  DroppedAttributesCount : Z
}.
End Span_Attributes.

Module Span_TimeEvent_Annotation.
Record t := {
  Description : option TruncatableString.t;
  Attributes : option Span_Attributes.t
}.
End Span_TimeEvent_Annotation.

Module Span_TimeEvent_MessageEvent.
Record t := {
  Type_ : Z;
  Id : Z;
  UncompressedSizeBytes : Z;
  CompressedSizeBytes : Z
}.
End Span_TimeEvent_MessageEvent.

Module Span_TimeEvent.
Inductive value :=
| Annotation_ (Annotation : Span_TimeEvent_Annotation.t)
| MessageEvent_ (MessageEvent : Span_TimeEvent_MessageEvent.t).
Record t := { Time : option timestamppb.Timestamp.t; Value : value }.
End Span_TimeEvent.

Module Span_TimeEvents.
Record t := {
  TimeEvent : list Span_TimeEvent.t;
  DroppedAnnotationsCount : Z;
  DroppedMessageEventsCount : Z
}.
End Span_TimeEvents.

Module StackTrace_StackFrame.
Record t := {
  FunctionName : option TruncatableString.t;
  FileName : option TruncatableString.t;
  LineNumber : Z
}.
End StackTrace_StackFrame.

Module StackTrace_StackFrames.
Record t := {
  Frame : list StackTrace_StackFrame.t;
  DroppedFramesCount : Z
}.
End StackTrace_StackFrames.

Module StackTrace.
Record t := { StackFrames : option StackTrace_StackFrames.t }.
End StackTrace.

Module Span_Link.
Record t := {
  TraceId : gostring;
  SpanId : gostring;
  Type_ : Z;
  Attributes : option Span_Attributes.t
}.
End Span_Link.

Module Span_Links.
Record t := { Link : list Span_Link.t }.
End Span_Links.

Module Span.
Record t := {
  Name : gostring;
  SpanId : gostring;
  ParentSpanId : gostring;
  DisplayName : option TruncatableString.t;
  StartTime : option timestamppb.Timestamp.t;
  EndTime : option timestamppb.Timestamp.t;
  Attributes : option Span_Attributes.t;
  StackTrace : option StackTrace.t;
  TimeEvents : option Span_TimeEvents.t;
  Links : option Span_Links.t;
  Status : option statuspb.Status.t;
  SameProcessAsParentSpan : option bool
}.
End Span.

End tracepb.

(** ** The recorded span ([trace], [time], [runtime])

    Modelled from the spec: [trace.SpanData] and the types it is built from
    are declared outside the repository's sources.  The records follow the
    spec's "Input span record" (section 3) and the fields [protoFromSpanData]
    reads. *)

Module time.
Module Time.
(** A [time.Time], observed through [t.Unix()] and [t.Nanosecond()]. *)
Record t := { Unix : Z; Nanosecond : Z }.
End Time.
End time.

Module runtime.

Module Frame.
Record t := { Function : gostring; File : gostring; Line : Z }.
(** The zero [Frame{}]. *)
Definition zero : t := {| Function := []; File := []; Line := 0 |}.
End Frame.

(** The iterator returned by [runtime.CallersFrames]: the call frames that
    remain to be returned. *)
Module Frames.
Definition t := list Frame.t.

(** [Next] returns the next call frame, or the zero [Frame] when there is
    none; [more] tells whether a further call will return a valid
    frame. *)
Definition Next (ci : t) : Frame.t * bool * t :=
  match ci with
  | [] => (Frame.zero, false, [])
  | frame :: rest => (frame, negb (len rest =? 0), rest)
  end.
End Frames.

End runtime.

Module trace.

(** A value of the dynamic type [interface{}] held by an attribute map:
    a [bool], an [int64], a [string], or a value of any other type. *)
Inductive AttrValue :=
| VBool (b : bool)
| VInt64 (i : Z)
| VString (s : gostring)
| VOther.

(** [TraceID] is a [[16]byte] and [SpanID] a [[8]byte]; [String()] renders
    them in lower-case hexadecimal. *)
Definition hexdigit (n : Z) : byte := nth (Z.to_nat n) (lit "0123456789abcdef") x00.

Definition hexString (id : list byte) : gostring :=
  flat_map (λ c, [hexdigit (byteZ c / 16); hexdigit (byteZ c mod 16)]) id.

Module SpanContext.
Record t := { TraceID : list byte; SpanID : list byte; TraceOptions : Z }.
End SpanContext.

Module Status.
Record t := { Code : Z; Message : gostring }.
End Status.

Module Annotation.
Record t := {
  Time : time.Time.t;
  Message : gostring;
  Attributes : gmap gostring AttrValue
}.
End Annotation.

Module MessageEvent.
Record t := {
  Time : time.Time.t;
  EventType : Z;
  MessageID : Z;
  UncompressedByteSize : Z;
  CompressedByteSize : Z
}.
End MessageEvent.

Module Link.
Record t := {
  TraceID : list byte;
  SpanID : list byte;
  Type_ : Z;
  Attributes : gmap gostring AttrValue
}.
End Link.

Module SpanData.
Record t := {
  SpanContext : SpanContext.t;
  ParentSpanID : list byte;
  Name : gostring;
  StartTime : time.Time.t;
  EndTime : time.Time.t;
  Attributes : gmap gostring AttrValue;
  Annotations : list Annotation.t;
  MessageEvents : list MessageEvent.t;
  Status : Status.t;
  Links : list Link.t;
  HasRemoteParent : bool;
  (** [StackTrace] holds the recorded program counters; they are
      represented by the call frames [runtime.CallersFrames] resolves
      them to.  [None] is the nil slice. *)
  StackTrace : option (list runtime.Frame.t)
}.
End SpanData.

End trace.

(** ** The encoder ([package stackdriver]) *)

Import tracepb.

Definition maxAnnotationEventsPerSpan : Z := 32.
Definition maxMessageEventsPerSpan : Z := 128.

(** The loop of [trunc]:
    [for { r, size := utf8.DecodeLastRune(b)
           if r == utf8.RuneError && size == 1 { b = b[:len(b)-1] } else { break } }].
    Every turn but the last shortens [b], so [S (length b)] turns are enough;
    [truncLoop_terminates] below shows the fuel is never exhausted. *)
Fixpoint truncLoop (fuel : nat) (b : list byte) : result (list byte) :=
  match fuel with
  | O => OutOfFuel
  | S fuel' =>
      let '(r, size) := utf8.DecodeLastRune b in
      if (r =? utf8.RuneError) && (size =? 1) then
        b' ← sliceTo b (len b - 1); truncLoop fuel' b'
      else Ok b
  end.

(** [trunc] returns a TruncatableString truncated to the given limit. *)
Definition trunc (s : gostring) (limit : Z) : result TruncatableString.t :=
  if len s >? limit then
    b ← sliceTo s limit;
    b ← truncLoop (S (length b)) b;
    mret {| TruncatableString.Value := b;
            TruncatableString.TruncatedByteCount := clip32 (len s - len b) |}
  else
    mret {| TruncatableString.Value := s;
            TruncatableString.TruncatedByteCount := 0 |}.

(** [timestampProto] creates a timestamp proto for a time.Time. *)
Definition timestampProto (t : time.Time.t) : timestamppb.Timestamp.t :=
  {| timestamppb.Timestamp.Seconds := time.Time.Unix t;
     timestamppb.Timestamp.Nanos := int32 (time.Time.Nanosecond t) |}.

(** The type switch of [copyAttributes]: the wire value of a [bool], [int64]
    or [string]; [None] for the [default] case, which [continue]s. *)
Definition attributeValue (value : trace.AttrValue) : result (option AttributeValue.t) :=
  match value with
  | trace.VBool value => Ok (Some (AttributeValue.BoolValue value))
  | trace.VInt64 value => Ok (Some (AttributeValue.IntValue value))
  | trace.VString value =>
      s ← trunc value 256; Ok (Some (AttributeValue.StringValue s))
  | trace.VOther => Ok None
  end.

(** [m[key] = v]: an assignment to an entry of a nil map panics. *)
Definition mapAssign {V : Type} (m : option (gmap gostring V)) (key : gostring) (v : V)
  : result (option (gmap gostring V)) :=
  match m with
  | None => Panic
  | Some m => Ok (Some (<[key := v]> m))
  end.

(** One turn of [for key, value := range in], on the attribute map of [*out]
    and the local counter [dropped] (an [int32]). *)
Definition copyAttribute (st : option (gmap gostring AttributeValue.t) * Z)
    (entry : gostring * trace.AttrValue)
  : result (option (gmap gostring AttributeValue.t) * Z) :=
  let '(attributeMap, dropped) := st in
  let '(key, value) := entry in
  av ← attributeValue value;
  match av with
  | None => Ok (attributeMap, dropped)
  | Some av =>
      if len key >? 128 then Ok (attributeMap, int32 (dropped + 1))
      else
        attributeMap ← mapAssign attributeMap key av;
        Ok (attributeMap, dropped)
  end.

(** The [range] loop over the entries of the map, in the order the run time
    happens to enumerate them. *)
Fixpoint copyAttributesLoop (entries : list (gostring * trace.AttrValue))
    (st : option (gmap gostring AttributeValue.t) * Z)
  : result (option (gmap gostring AttributeValue.t) * Z) :=
  match entries with
  | [] => Ok st
  | entry :: rest =>
      st ← copyAttribute st entry; copyAttributesLoop rest st
  end.

(** [copyAttributes] copies a map of attributes to a proto map field.
    It creates the map if it is nil.  The argument [out] is the value of
    [*out] at the call, the result its value at the return.  Go leaves the
    order of a [range] over a map open; [map_to_list] fixes one, and
    [copyAttributesLoop_order] shows that the outcome is the same for every
    other. *)
Definition copyAttributes (out : option Span_Attributes.t)
    (in_ : gmap gostring trace.AttrValue) : result (option Span_Attributes.t) :=
  if Z.of_nat (size in_) =? 0 then Ok out
  else
    let out :=
      match out with
      | None => {| Span_Attributes.AttributeMap := None;
                   Span_Attributes.DroppedAttributesCount := 0 |}
      | Some out => out
      end in
    let attributeMap :=
      match Span_Attributes.AttributeMap out with
      | None => Some ∅
      | Some m => Some m
      end in
    '(attributeMap, dropped) ← copyAttributesLoop (map_to_list in_) (attributeMap, 0);
    Ok (Some {| Span_Attributes.AttributeMap := attributeMap;
                Span_Attributes.DroppedAttributesCount := dropped |}).

(** [if sp.TimeEvents == nil { sp.TimeEvents = &tracepb.Span_TimeEvents{} }] *)
Definition ensureTimeEvents (te : option Span_TimeEvents.t) : Span_TimeEvents.t :=
  match te with
  | None => {| Span_TimeEvents.TimeEvent := [];
               Span_TimeEvents.DroppedAnnotationsCount := 0;
               Span_TimeEvents.DroppedMessageEventsCount := 0 |}
  | Some te => te
  end.

(** [sp.TimeEvents.TimeEvent = append(sp.TimeEvents.TimeEvent, event)] *)
Definition appendTimeEvent (te : Span_TimeEvents.t) (event : Span_TimeEvent.t)
  : Span_TimeEvents.t :=
  {| Span_TimeEvents.TimeEvent := Span_TimeEvents.TimeEvent te ++ [event];
     Span_TimeEvents.DroppedAnnotationsCount := Span_TimeEvents.DroppedAnnotationsCount te;
     Span_TimeEvents.DroppedMessageEventsCount := Span_TimeEvents.DroppedMessageEventsCount te |}.

(** The time-event built from one annotation (lines 113-118). *)
Definition annotationEvent (a : trace.Annotation.t) : result Span_TimeEvent.t :=
  description ← trunc (trace.Annotation.Message a) 256;
  attributes ← copyAttributes None (trace.Annotation.Attributes a);
  let annotation :=
    {| Span_TimeEvent_Annotation.Description := Some description;
       Span_TimeEvent_Annotation.Attributes := attributes |} in
  Ok {| Span_TimeEvent.Time := Some (timestampProto (trace.Annotation.Time a));
        Span_TimeEvent.Value := Span_TimeEvent.Annotation_ annotation |}.

(** The state of the two time-event loops: the counter of emitted events,
    the dropped count, and [sp.TimeEvents]. *)
Definition eventState : Type := Z * Z * option Span_TimeEvents.t.

(** [for i, a := range as { ... }], entered at index [i] with [as_] the
    elements from [i] on and [n = len(as)]. *)
Fixpoint annotationsLoop (n i : Z) (as_ : list trace.Annotation.t) (st : eventState)
  : result eventState :=
  match as_ with
  | [] => Ok st
  | a :: rest =>
      let '(annotations, droppedAnnotationsCount, te) := st in
      if annotations >=? maxAnnotationEventsPerSpan then
        Ok (annotations, n - i, te)
      else
        event ← annotationEvent a;
        let annotations := annotations + 1 in
        let te := appendTimeEvent (ensureTimeEvents te) event in
        annotationsLoop n (i + 1) rest (annotations, droppedAnnotationsCount, Some te)
  end.

(** The time-event built from one message event (lines 136-146). *)
Definition messageEvent (e : trace.MessageEvent.t) : Span_TimeEvent.t :=
  {| Span_TimeEvent.Time := Some (timestampProto (trace.MessageEvent.Time e));
     Span_TimeEvent.Value := Span_TimeEvent.MessageEvent_
       {| Span_TimeEvent_MessageEvent.Type_ := trace.MessageEvent.EventType e;
          Span_TimeEvent_MessageEvent.Id := trace.MessageEvent.MessageID e;
          Span_TimeEvent_MessageEvent.UncompressedSizeBytes :=
            trace.MessageEvent.UncompressedByteSize e;
          Span_TimeEvent_MessageEvent.CompressedSizeBytes :=
            trace.MessageEvent.CompressedByteSize e |} |}.

(** [for i, e := range es { ... }] *)
Fixpoint messageEventsLoop (n i : Z) (es : list trace.MessageEvent.t) (st : eventState)
  : result eventState :=
  match es with
  | [] => Ok st
  | e :: rest =>
      let '(messageEvents, droppedMessageEventsCount, te) := st in
      if messageEvents >=? maxMessageEventsPerSpan then
        Ok (messageEvents, n - i, te)
      else
        let messageEvents := messageEvents + 1 in
        let te := appendTimeEvent (ensureTimeEvents te) (messageEvent e) in
        messageEventsLoop n (i + 1) rest (messageEvents, droppedMessageEventsCount, Some te)
  end.

(** Lines 149-155: the two dropped counts are stored, clipped, when one of
    them is not zero. *)
Definition recordDropped (droppedAnnotationsCount droppedMessageEventsCount : Z)
    (te : option Span_TimeEvents.t) : option Span_TimeEvents.t :=
  if negb (droppedAnnotationsCount =? 0) || negb (droppedMessageEventsCount =? 0) then
    let te := ensureTimeEvents te in
    Some {| Span_TimeEvents.TimeEvent := Span_TimeEvents.TimeEvent te;
            Span_TimeEvents.DroppedAnnotationsCount := clip32 droppedAnnotationsCount;
            Span_TimeEvents.DroppedMessageEventsCount := clip32 droppedMessageEventsCount |}
  else te.

(** The frame appended for one call frame (lines 168-172). *)
Definition stackFrame (frame : runtime.Frame.t) : result StackTrace_StackFrame.t :=
  functionName ← trunc (runtime.Frame.Function frame) 1024;
  fileName ← trunc (runtime.Frame.File frame) 256;
  Ok {| StackTrace_StackFrame.FunctionName := Some functionName;
        StackTrace_StackFrame.FileName := Some fileName;
        StackTrace_StackFrame.LineNumber := runtime.Frame.Line frame |}.

(** The frame loop (lines 162-177): [sf] is [sf.Frame], [dropped] the local
    counter.  Each turn takes one frame from the iterator, so
    [S (length frames)] turns are enough. *)
Fixpoint framesLoop (fuel : nat) (frames : runtime.Frames.t)
    (sf : list StackTrace_StackFrame.t) (dropped : Z)
  : result (list StackTrace_StackFrame.t * Z) :=
  match fuel with
  | O => OutOfFuel
  | S fuel' =>
      let '(frame, more, frames) := runtime.Frames.Next frames in
      '(sf, dropped) ←
        (if len sf >=? 128 then Ok (sf, dropped + 1)
         else
           f ← stackFrame frame;
           Ok (sf ++ [f], dropped));
      if negb more then Ok (sf, dropped)
      else framesLoop fuel' frames sf dropped
  end.

(** Lines 157-179. *)
Definition stackTrace (pcs : option (list runtime.Frame.t)) : result (option StackTrace.t) :=
  match pcs with
  | None => Ok None
  | Some pcs =>
      let frames : runtime.Frames.t := pcs in
      '(sf, dropped) ← framesLoop (S (length pcs)) frames [] 0;
      Ok (Some {| StackTrace.StackFrames :=
                    Some {| StackTrace_StackFrames.Frame := sf;
                            StackTrace_StackFrames.DroppedFramesCount := clip32 dropped |} |})
  end.

(** The body of [for _, l := range s.Links] (lines 185-191). *)
Definition link (projectID : gostring) (l : trace.Link.t) : result Span_Link.t :=
  attributes ← copyAttributes None (trace.Link.Attributes l);
  Ok {| Span_Link.TraceId :=
          lit "projects/" ++ projectID ++ lit "/traces/"
            ++ trace.hexString (trace.Link.TraceID l);
        Span_Link.SpanId := trace.hexString (trace.Link.SpanID l);
        Span_Link.Type_ := trace.Link.Type_ l;
        Span_Link.Attributes := attributes |}.

Fixpoint linksLoop (projectID : gostring) (ls : list trace.Link.t) (acc : list Span_Link.t)
  : result (list Span_Link.t) :=
  match ls with
  | [] => Ok acc
  | l :: rest => lk ← link projectID l; linksLoop projectID rest (acc ++ [lk])
  end.

(** Lines 181-193. *)
Definition links (projectID : gostring) (ls : list trace.Link.t) : result (option Span_Links.t) :=
  if len ls >? 0 then
    lks ← linksLoop projectID ls [];
    Ok (Some {| Span_Links.Link := lks |})
  else Ok None.

(** [protoFromSpanData] returns a protocol buffer representation of a
    SpanData.  [None] is the nil pointer, for the argument and the result.
    The source fills the fields of [sp] one after the other, each of them
    once and none from another; the steps below are in the order of the
    source and the record is put together at the end. *)
Definition protoFromSpanData (s : option trace.SpanData.t) (projectID : gostring)
  : result (option Span.t) :=
  match s with
  | None => Ok None
  | Some s =>
      let traceIDString :=
        trace.hexString (trace.SpanContext.TraceID (trace.SpanData.SpanContext s)) in
      let spanIDString :=
        trace.hexString (trace.SpanContext.SpanID (trace.SpanData.SpanContext s)) in
      displayName ← trunc (trace.SpanData.Name s) 128;
      let parentSpanId :=
        let p := trace.SpanData.ParentSpanID s in
        if bool_decide (p ≠ repeat x00 8) then trace.hexString p else [] in
      let status :=
        let st := trace.SpanData.Status s in
        if negb (trace.Status.Code st =? 0) || negb (len (trace.Status.Message st) =? 0)
        then Some {| statuspb.Status.Code := trace.Status.Code st;
                     statuspb.Status.Message := trace.Status.Message st |}
        else None in
      attributes ← copyAttributes None (trace.SpanData.Attributes s);
      let as_ := trace.SpanData.Annotations s in
      '(annotations, droppedAnnotationsCount, te) ←
        annotationsLoop (len as_) 0 as_ (0, 0, None);
      let es := trace.SpanData.MessageEvents s in
      '(messageEvents, droppedMessageEventsCount, te) ←
        messageEventsLoop (len es) 0 es (0, 0, te);
      let te := recordDropped droppedAnnotationsCount droppedMessageEventsCount te in
      st ← stackTrace (trace.SpanData.StackTrace s);
      lks ← links projectID (trace.SpanData.Links s);
      Ok (Some {|
        Span.Name := lit "projects/" ++ projectID ++ lit "/traces/" ++ traceIDString
                       ++ lit "/spans/" ++ spanIDString;
        Span.SpanId := spanIDString;
        Span.ParentSpanId := parentSpanId;
        Span.DisplayName := Some displayName;
        Span.StartTime := Some (timestampProto (trace.SpanData.StartTime s));
        Span.EndTime := Some (timestampProto (trace.SpanData.EndTime s));
        Span.Attributes := attributes;
        Span.StackTrace := st;
        Span.TimeEvents := te;
        Span.Links := lks;
        Span.Status := status;
        Span.SameProcessAsParentSpan := Some (negb (trace.SpanData.HasRemoteParent s))
      |})
  end.

(** * Vocabulary of the properties

    The definitions of this part are not code of the encoder: they name what
    the properties below speak about (a character that is complete or cut
    short, an attribute that is kept or counted, the reading of an optional
    wire message), and the inputs of the examples. *)

(** ** Well-formed UTF-8

    [wellFormedChar], [endsWithChar] and [endsIncomplete] give the words
    "multi-byte character" and "incomplete" their meaning independently of
    the decoder; [sizeOf], [loOf], [hiOf] and [decodeRuneByRange] restate the
    decoder's tables by ranges, and are shown equal to it. *)

(** The test of the loop of [trunc]: the last rune of [b] does not decode,
    [utf8.DecodeLastRune] answers [(RuneError, 1)]. *)
Definition invalidTail (b : list byte) : bool :=
  let '(r, size) := utf8.DecodeLastRune b in
  (r =? utf8.RuneError) && (size =? 1).

(** A continuation byte, [10xxxxxx]. *)
Definition isCont (b : Z) : bool := (0x80 <=? b) && (b <=? 0xBF).

(** The well-formed UTF-8 encodings of one character (Unicode Standard,
    table 3-7, "Well-Formed UTF-8 Byte Sequences"). *)
Definition wellFormedChar (c : list byte) : bool :=
  match byteZ <$> c with
  | [b0] => b0 <=? 0x7F
  | [b0; b1] => (0xC2 <=? b0) && (b0 <=? 0xDF) && isCont b1
  | [b0; b1; b2] =>
      ((b0 =? 0xE0) && (0xA0 <=? b1) && (b1 <=? 0xBF)
       || (0xE1 <=? b0) && (b0 <=? 0xEC) && isCont b1
       || (b0 =? 0xED) && (0x80 <=? b1) && (b1 <=? 0x9F)
       || (0xEE <=? b0) && (b0 <=? 0xEF) && isCont b1)
      && isCont b2
  | [b0; b1; b2; b3] =>
      ((b0 =? 0xF0) && (0x90 <=? b1) && (b1 <=? 0xBF)
       || (0xF1 <=? b0) && (b0 <=? 0xF3) && isCont b1
       || (b0 =? 0xF4) && (0x80 <=? b1) && (b1 <=? 0x8F))
      && isCont b2 && isCont b3
  | _ => false
  end.

(** The sequence ends with a complete, well-formed character. *)
Definition endsWithChar (b : list byte) : Prop :=
  exists p c, b = p ++ c /\ wellFormedChar c = true.

(** The sequence ends in the middle of a character: its last bytes are the
    beginning, and not the whole, of a well-formed character. *)
Definition endsIncomplete (b : list byte) : Prop :=
  exists p c c', b = p ++ c /\ c <> [] /\ c' <> [] /\ wellFormedChar (c ++ c') = true.

(** The byte is a continuation byte. *)
Definition isContByte (x : byte) : Prop := isCont (byteZ x) = true.

(** The size, and the bounds of the second byte, that the tables [first]
    and [acceptRanges] give for a leading byte, by ranges of that byte. *)
Definition sizeOf (b0 : Z) : Z :=
  if b0 <? 0xE0 then 2 else if b0 <? 0xF0 then 3 else 4.

Definition loOf (b0 : Z) : Z :=
  if b0 =? 0xE0 then 0xA0 else if b0 =? 0xF0 then 0x90 else 0x80.

Definition hiOf (b0 : Z) : Z :=
  if b0 =? 0xED then 0x9F else if b0 =? 0xF4 then 0x8F else 0xBF.

(** [DecodeRune], with the table lookups replaced by comparisons. *)
Definition decodeRuneByRange (p : list byte) : Z * Z :=
  let p0 := utf8.at_ p 0 in
  if len p <? 1 then (utf8.RuneError, 0) else
  if p0 <? 0x80 then (p0, 1) else
  if (p0 <? 0xC2) || (0xF4 <? p0) then (utf8.RuneError, 1) else
  if len p <? sizeOf p0 then (utf8.RuneError, 1) else
  let b1 := utf8.at_ p 1 in
  if (b1 <? loOf p0) || (hiOf p0 <? b1) then (utf8.RuneError, 1) else
  if sizeOf p0 <=? 2 then
    (Z.lor (Z.shiftl (Z.land p0 utf8.mask2) 6) (Z.land b1 utf8.maskx), 2)
  else
  let b2 := utf8.at_ p 2 in
  if (b2 <? utf8.locb) || (utf8.hicb <? b2) then (utf8.RuneError, 1) else
  if sizeOf p0 <=? 3 then
    (Z.lor (Z.lor (Z.shiftl (Z.land p0 utf8.mask3) 12) (Z.shiftl (Z.land b1 utf8.maskx) 6))
           (Z.land b2 utf8.maskx), 3)
  else
  let b3 := utf8.at_ p 3 in
  if (b3 <? utf8.locb) || (utf8.hicb <? b3) then (utf8.RuneError, 1) else
  (Z.lor (Z.lor (Z.lor (Z.shiftl (Z.land p0 utf8.mask4) 18)
                       (Z.shiftl (Z.land b1 utf8.maskx) 12))
                (Z.shiftl (Z.land b2 utf8.maskx) 6))
         (Z.land b3 utf8.maskx), 4).

(** ** Attributes *)

(** The value has one of the three types of the type switch. *)
Definition supported (value : trace.AttrValue) : bool :=
  match value with
  | trace.VOther => false
  | _ => true
  end.

(** An entry that reaches the key-length test and fails it. *)
Definition rejected (entry : gostring * trace.AttrValue) : Prop :=
  supported entry.2 = true /\ 128 < len entry.1.

(** An entry that reaches the assignment to the attribute map. *)
Definition copied (entry : gostring * trace.AttrValue) : Prop :=
  supported entry.2 = true /\ len entry.1 <= 128.

Global Instance rejected_dec entry : Decision (rejected entry).
Proof. unfold rejected. apply _. Defined.

Global Instance copied_dec entry : Decision (copied entry).
Proof. unfold copied. apply _. Defined.

(** The value of the entry has one of the three types of the type switch. *)
Definition hasSupportedType (entry : gostring * trace.AttrValue) : Prop :=
  supported entry.2 = true.

Global Instance hasSupportedType_dec entry : Decision (hasSupportedType entry).
Proof. unfold hasSupportedType. apply _. Defined.

(** [GetDroppedAttributesCount()]: zero for the nil message. *)
Definition droppedAttributes (attributes : option Span_Attributes.t) : Z :=
  match attributes with
  | Some a => Span_Attributes.DroppedAttributesCount a
  | None => 0
  end.

(** [GetAttributeMap()]: the empty map for a nil message or a nil map. *)
Definition attributeMap (attributes : option Span_Attributes.t)
  : gmap gostring AttributeValue.t :=
  match attributes with
  | Some a => default ∅ (Span_Attributes.AttributeMap a)
  | None => ∅
  end.

(** ** Time events and stack frames *)

(** [GetTimeEvent()], [GetDroppedAnnotationsCount()] and
    [GetDroppedMessageEventsCount()]: empty and zero for the nil message. *)
Definition timeEvents (te : option Span_TimeEvents.t) : list Span_TimeEvent.t :=
  match te with
  | Some te => Span_TimeEvents.TimeEvent te
  | None => []
  end.

Definition droppedAnnotations (te : option Span_TimeEvents.t) : Z :=
  match te with
  | Some te => Span_TimeEvents.DroppedAnnotationsCount te
  | None => 0
  end.

Definition droppedMessageEvents (te : option Span_TimeEvents.t) : Z :=
  match te with
  | Some te => Span_TimeEvents.DroppedMessageEventsCount te
  | None => 0
  end.

(** The tag of a time-event. *)
Definition isAnnotation (event : Span_TimeEvent.t) : Prop :=
  match Span_TimeEvent.Value event with
  | Span_TimeEvent.Annotation_ _ => True
  | Span_TimeEvent.MessageEvent_ _ => False
  end.

Definition isMessageEvent (event : Span_TimeEvent.t) : Prop :=
  match Span_TimeEvent.Value event with
  | Span_TimeEvent.Annotation_ _ => False
  | Span_TimeEvent.MessageEvent_ _ => True
  end.

Global Instance isAnnotation_dec event : Decision (isAnnotation event).
Proof. unfold isAnnotation. destruct (Span_TimeEvent.Value event); apply _. Defined.

Global Instance isMessageEvent_dec event : Decision (isMessageEvent event).
Proof. unfold isMessageEvent. destruct (Span_TimeEvent.Value event); apply _. Defined.

(** [sp.TimeEvents] after the events [events] have been appended in turn. *)
Definition pushEvents (te : option Span_TimeEvents.t) (events : list Span_TimeEvent.t)
  : option Span_TimeEvents.t :=
  foldl (λ te event, Some (appendTimeEvent (ensureTimeEvents te) event)) te events.

(** [GetStackFrames().GetFrame()] and [GetStackFrames().GetDroppedFramesCount()]. *)
Definition stackFrames (st : option StackTrace.t) : list StackTrace_StackFrame.t :=
  match st ≫= StackTrace.StackFrames with
  | Some sf => StackTrace_StackFrames.Frame sf
  | None => []
  end.

Definition droppedFrames (st : option StackTrace.t) : Z :=
  match st ≫= StackTrace.StackFrames with
  | Some sf => StackTrace_StackFrames.DroppedFramesCount sf
  | None => 0
  end.

(** ** Example inputs *)

(** A key of 130 bytes, and two attribute maps: one entry with that key and
    a value of an unsupported type; and four entries, of which one is copied,
    one is rejected for its key, and two have an unsupported type. *)
Definition key130 : gostring := repeat x61 130.

Definition attrsLongKeyFloat : gmap gostring trace.AttrValue :=
  {[ key130 := trace.VOther ]}.

Definition attrsMixed : gmap gostring trace.AttrValue :=
  <[ key130 := trace.VInt64 7 ]>
    (<[ lit "ok" := trace.VBool true ]>
      (<[ lit "ratio" := trace.VOther ]>
        {[ x62 :: key130 := trace.VOther ]})).

Definition noteAt (i : nat) : trace.Annotation.t :=
  {| trace.Annotation.Time := {| time.Time.Unix := Z.of_nat i; time.Time.Nanosecond := 0 |};
     trace.Annotation.Message := lit "note";
     trace.Annotation.Attributes := ∅ |}.

Definition messageAt (i : nat) : trace.MessageEvent.t :=
  {| trace.MessageEvent.Time :=
       {| time.Time.Unix := Z.of_nat i; time.Time.Nanosecond := 0 |};
     trace.MessageEvent.EventType := 1;
     trace.MessageEvent.MessageID := Z.of_nat i;
     trace.MessageEvent.UncompressedByteSize := 10;
     trace.MessageEvent.CompressedByteSize := 5 |}.

Definition frameAt (i : nat) : runtime.Frame.t :=
  {| runtime.Frame.Function := lit "main.f";
     runtime.Frame.File := lit "main.go";
     runtime.Frame.Line := Z.of_nat i |}.

Definition spanWith (attributes : gmap gostring trace.AttrValue)
    (annotations : list trace.Annotation.t) (messages : list trace.MessageEvent.t)
    (stack : option (list runtime.Frame.t)) : trace.SpanData.t :=
  {| trace.SpanData.SpanContext :=
       {| trace.SpanContext.TraceID := repeat x01 16;
          trace.SpanContext.SpanID := repeat x02 8;
          trace.SpanContext.TraceOptions := 1 |};
     trace.SpanData.ParentSpanID := repeat x00 8;
     trace.SpanData.Name := lit "span";
     trace.SpanData.StartTime := {| time.Time.Unix := 1; time.Time.Nanosecond := 0 |};
     trace.SpanData.EndTime := {| time.Time.Unix := 2; time.Time.Nanosecond := 0 |};
     trace.SpanData.Attributes := attributes;
     trace.SpanData.Annotations := annotations;
     trace.SpanData.MessageEvents := messages;
     trace.SpanData.Status := {| trace.Status.Code := 0; trace.Status.Message := [] |};
     trace.SpanData.Links := [];
     trace.SpanData.HasRemoteParent := false;
     trace.SpanData.StackTrace := stack |}.

(** The span an encoding returned; [None] stands for the nil span and for
    the outcomes [Panic] and [OutOfFuel], which no present span produces. *)
Definition encoded (s : trace.SpanData.t) : option Span.t :=
  match protoFromSpanData (Some s) (lit "p") with
  | Ok sp => sp
  | _ => None
  end.

(** A span with one attribute of an unsupported type and a stack trace that
    is present and empty. *)
Definition spanUncounted : trace.SpanData.t :=
  spanWith {[ lit "ratio" := trace.VOther ]} [] [] (Some []).

(** A span with 40 annotations, 130 message events, 200 frames and the
    attributes [attrsMixed]. *)
Definition spanCounted : trace.SpanData.t :=
  spanWith attrsMixed (noteAt <$> seq 0 40) (messageAt <$> seq 0 130)
           (Some (frameAt <$> seq 0 200)).

(** ** Valid UTF-8, and a span with other items *)

(** A sequence of bytes that is valid UTF-8: well-formed characters, one
    after the other. *)
Definition validUTF8 (s : list byte) : Prop :=
  exists cs : list (list byte), Forall (λ c, wellFormedChar c = true) cs /\ s = concat cs.

(** The span [s] with other annotations, message events and stack trace. *)
Definition withItems (s : trace.SpanData.t) (annotations : list trace.Annotation.t)
    (messages : list trace.MessageEvent.t) (stack : option (list runtime.Frame.t))
  : trace.SpanData.t :=
  {| trace.SpanData.SpanContext := trace.SpanData.SpanContext s;
     trace.SpanData.ParentSpanID := trace.SpanData.ParentSpanID s;
     trace.SpanData.Name := trace.SpanData.Name s;
     trace.SpanData.StartTime := trace.SpanData.StartTime s;
     trace.SpanData.EndTime := trace.SpanData.EndTime s;
     trace.SpanData.Attributes := trace.SpanData.Attributes s;
     trace.SpanData.Annotations := annotations;
     trace.SpanData.MessageEvents := messages;
     trace.SpanData.Status := trace.SpanData.Status s;
     trace.SpanData.Links := trace.SpanData.Links s;
     trace.SpanData.HasRemoteParent := trace.SpanData.HasRemoteParent s;
     trace.SpanData.StackTrace := stack |}.

(** ** Tactics *)

(** [p[i]] for the first four bytes of a sequence given by its elements. *)
Ltac simpl_at :=
  repeat match goal with
  | |- context [utf8.at_ (?x :: ?l) 0] => change (utf8.at_ (x :: l) 0) with (byteZ x)
  | |- context [utf8.at_ (?x :: ?y :: ?l) 1] => change (utf8.at_ (x :: y :: l) 1) with (byteZ y)
  | |- context [utf8.at_ (?x :: ?y :: ?z :: ?l) 2] =>
      change (utf8.at_ (x :: y :: z :: l) 2) with (byteZ z)
  | |- context [utf8.at_ (?x :: ?y :: ?z :: ?w :: ?l) 3] =>
      change (utf8.at_ (x :: y :: z :: w :: l) 3) with (byteZ w)
  end.

(** Case analysis on the comparisons of the goal and of the hypotheses. *)
Ltac split_comparison :=
  match goal with
  | |- context [?a <? ?b] => destruct (Z.ltb_spec a b)
  | |- context [?a <=? ?b] => destruct (Z.leb_spec a b)
  | |- context [?a =? ?b] => destruct (Z.eqb_spec a b)
  | H : context [?a <? ?b] |- _ => destruct (Z.ltb_spec a b)
  | H : context [?a <=? ?b] |- _ => destruct (Z.leb_spec a b)
  | H : context [?a =? ?b] |- _ => destruct (Z.eqb_spec a b)
  end.

Ltac by_cases :=
  cbn [orb andb negb] in *;
  repeat (split_comparison; cbn [orb andb negb] in *; try lia; try discriminate).

(** The byte ranges of the decoder and of [wellFormedChar], as comparisons. *)
Ltac unfold_ranges :=
  unfold sizeOf, loOf, hiOf, isCont, utf8.locb, utf8.hicb, utf8.RuneError in *.

(** * Properties *)

(** ** Machine integers *)

Lemma len_nonneg {A : Type} (s : list A) : 0 <= len s.
Proof. unfold len. lia. Qed.

Lemma len_app {A : Type} (s t : list A) : len (s ++ t) = len s + len t.
Proof. unfold len. rewrite length_app. lia. Qed.

Lemma len_take {A : Type} (s : list A) (n : Z) :
  0 <= n <= len s -> len (take (Z.to_nat n) s) = n.
Proof. unfold len. intros H. rewrite length_take. lia. Qed.

Lemma int32_id (x : Z) : MinInt32 <= x <= MaxInt32 -> int32 x = x.
Proof.
  unfold int32, MinInt32, MaxInt32. intros H.
  rewrite Z.mod_small by lia. lia.
Qed.

Lemma int32_range (x : Z) : MinInt32 <= int32 x <= MaxInt32.
Proof.
  unfold int32, MinInt32, MaxInt32.
  pose proof (Z.mod_pos_bound (x + 2147483648) 4294967296). lia.
Qed.

Lemma int32_succ (x : Z) : int32 (int32 x + 1) = int32 (x + 1).
Proof.
  unfold int32.
  replace ((x + 2147483648) mod 4294967296 - 2147483648 + 1 + 2147483648)
    with ((x + 2147483648) mod 4294967296 + 1) by lia.
  replace (x + 1 + 2147483648) with ((x + 2147483648) + 1) by lia.
  now rewrite Zplus_mod_idemp_l.
Qed.

Lemma clip32_id (x : Z) : MinInt32 <= x <= MaxInt32 -> clip32 x = x.
Proof.
  intros H. unfold clip32.
  destruct (Z.ltb_spec x MinInt32); [lia|].
  destruct (Z.gtb_spec x MaxInt32); [lia|].
  now apply int32_id.
Qed.

Lemma clip32_range (x : Z) : MinInt32 <= clip32 x <= MaxInt32.
Proof.
  unfold clip32.
  destruct (Z.ltb_spec x MinInt32); [unfold MinInt32, MaxInt32; lia|].
  destruct (Z.gtb_spec x MaxInt32); [unfold MinInt32, MaxInt32; lia|].
  apply int32_range.
Qed.

Lemma clip32_nonneg (x : Z) :
  0 <= x -> clip32 x = Z.min x MaxInt32.
Proof.
  intros H. unfold clip32.
  destruct (Z.ltb_spec x MinInt32); [unfold MinInt32 in *; lia|].
  destruct (Z.gtb_spec x MaxInt32); [lia|].
  rewrite int32_id by (unfold MinInt32; lia). lia.
Qed.

(** C7.  For every integer [x], [clip32 x] is the least 32-bit signed value
    when [x] lies below it, the greatest when [x] lies above it, and [x]
    itself otherwise. *)
Theorem clip32_saturates (x : Z) :
  clip32 x =
    if decide (x < MinInt32) then MinInt32
    else if decide (MaxInt32 < x) then MaxInt32
    else x.
Proof.
  repeat case_decide.
  - unfold clip32. destruct (Z.ltb_spec x MinInt32); [done|lia].
  - unfold clip32. destruct (Z.ltb_spec x MinInt32); [lia|].
    destruct (Z.gtb_spec x MaxInt32); [done|lia].
  - apply clip32_id. lia.
Qed.

(** ** Slices *)

Lemma sliceTo_ok {A : Type} (s : list A) (hi : Z) :
  0 <= hi <= len s -> sliceTo s hi = Ok (take (Z.to_nat hi) s).
Proof.
  intros H. unfold sliceTo.
  destruct (Z.ltb_spec hi 0); [lia|].
  destruct (Z.ltb_spec (len s) hi); [lia|]. done.
Qed.

Lemma sliceTo_negative {A : Type} (s : list A) (hi : Z) :
  hi < 0 -> sliceTo s hi = Panic.
Proof.
  intros H. unfold sliceTo. destruct (Z.ltb_spec hi 0); [done|lia].
Qed.

(** ** [unicode/utf8]: what the decoder accepts *)

Lemma byteZ_range (b : byte) : 0 <= byteZ b <= 255.
Proof. unfold byteZ. pose proof (Byte.to_N_bounded b). lia. Qed.

Lemma len_cons {A} (x : A) (l : list A) : len (x :: l) = 1 + len l.
Proof. unfold len. cbn [length]. lia. Qed.

Lemma DecodeRune_byRange (p : list byte) : utf8.DecodeRune p = decodeRuneByRange p.
Proof.
  destruct p as [|b0 q]; [reflexivity|].
  unfold utf8.DecodeRune, decodeRuneByRange.
  assert (Hlen : (len (b0 :: q) <? 1) = false).
  { rewrite len_cons. pose proof (len_nonneg q). destruct (Z.ltb_spec (1 + len q) 1); lia. }
  rewrite Hlen.
  change (utf8.at_ (b0 :: q) 0) with (byteZ b0).
  generalize (len (b0 :: q)) (utf8.at_ (b0 :: q) 1) (utf8.at_ (b0 :: q) 2)
             (utf8.at_ (b0 :: q) 3).
  intros n b1 b2 b3. destruct b0; reflexivity.
Qed.

Lemma RuneStart_byte (b : byte) : utf8.RuneStart (byteZ b) = negb (isCont (byteZ b)).
Proof. destruct b; reflexivity. Qed.

(** [DecodeRune] on a sequence that starts with a well-formed character. *)
Lemma DecodeRune_complete (c rest : list byte) :
  wellFormedChar c = true ->
  exists r, utf8.DecodeRune (c ++ rest) = (r, len c)
    /\ ~ (r = utf8.RuneError /\ len c = 1).
Proof.
  intros Hc. pose proof (len_nonneg rest) as Hrest. rewrite DecodeRune_byRange.
  destruct c as [|b0 [|b1 [|b2 [|b3 [|b4 c]]]]]; try discriminate Hc;
    unfold wellFormedChar in Hc; cbn [fmap list_fmap] in Hc;
    unfold decodeRuneByRange; cbn [app]; simpl_at;
    rewrite ?len_cons; change (len (@nil byte)) with 0;
    pose proof (byteZ_range b0); unfold_ranges;
    by_cases; eexists; (split; [reflexivity|lia]).
Qed.

(** [DecodeRune] decodes nothing but well-formed characters. *)
Lemma DecodeRune_sound (q : list byte) (r size : Z) :
  q <> [] ->
  utf8.DecodeRune q = (r, size) ->
  ~ (r = utf8.RuneError /\ size = 1) ->
  1 <= size <= len q /\ wellFormedChar (take (Z.to_nat size) q) = true.
Proof.
  intros Hq Hrun Hvalid. rewrite DecodeRune_byRange in Hrun.
  destruct q as [|b0 q]; [done|]. clear Hq.
  unfold decodeRuneByRange in Hrun. revert Hrun. simpl_at.
  pose proof (byteZ_range b0). pose proof (len_nonneg q).
  destruct q as [|b1 [|b2 [|b3 q]]]; simpl_at;
    rewrite ?len_cons; change (len (@nil byte)) with 0; try pose proof (len_nonneg q);
    unfold_ranges; by_cases; intros [= <- <-];
    try (exfalso; apply Hvalid; split; reflexivity);
    (split; [lia|]);
    change (Z.to_nat 1) with 1%nat; change (Z.to_nat 2) with 2%nat;
    change (Z.to_nat 3) with 3%nat; change (Z.to_nat 4) with 4%nat; cbn [firstn];
    unfold wellFormedChar; cbn [fmap list_fmap]; unfold_ranges; by_cases; reflexivity.
Qed.

Lemma at_app (p c : list byte) (i : Z) :
  0 <= i -> utf8.at_ (p ++ c) (len p + i) = utf8.at_ c i.
Proof.
  intros Hi. unfold utf8.at_, len. f_equal.
  replace (Z.to_nat (Z.of_nat (length p) + i)) with (length p + Z.to_nat i)%nat by lia.
  apply app_nth2_plus.
Qed.

Lemma drop_app_len (p c : list byte) (i : Z) :
  0 <= i -> drop (Z.to_nat (len p + i)) (p ++ c) = drop (Z.to_nat i) c.
Proof.
  intros Hi. unfold len.
  replace (Z.to_nat (Z.of_nat (length p) + i)) with (length p + Z.to_nat i)%nat by lia.
  apply drop_app_add.
Qed.

(** The backwards scan stops at the nearest byte, from [start] down to
    [lim], that can start a rune, and one below [lim] when there is none. *)
Lemma scanBack_spec (fuel : nat) (p : list byte) : forall start lim : Z,
  lim - 1 <= start -> start - lim + 1 < Z.of_nat fuel ->
  let r := utf8.scanBack fuel p start lim in
  lim - 1 <= r <= start
  /\ (lim <= r -> utf8.RuneStart (utf8.at_ p r) = true)
  /\ (forall j, r < j <= start -> utf8.RuneStart (utf8.at_ p j) = false).
Proof.
  induction fuel as [|fuel IH]; intros start lim Hstart Hfuel; [lia|].
  cbn [utf8.scanBack]. destruct (Z.geb_spec start lim) as [Hge|Hlt].
  - destruct (utf8.RuneStart (utf8.at_ p start)) eqn:Hrs; cbn zeta.
    + split; [lia|]. split; [done|]. intros j Hj. lia.
    + destruct (IH (start - 1) lim) as (Hr & Hfound & Hnone); [lia|lia|].
      split; [lia|]. split; [done|].
      intros j Hj. destruct (decide (j = start)) as [->|Hne]; [done|].
      apply Hnone. lia.
  - cbn zeta. split; [lia|]. split; [lia|]. intros j Hj. lia.
Qed.

(** [DecodeLastRune] on a sequence whose last byte is not ASCII, with the
    scan replaced by what it finds. *)
Lemma DecodeLastRune_scan (b : list byte) :
  b <> [] -> utf8.RuneSelf <= utf8.at_ b (len b - 1) ->
  exists s0 : Z,
    Z.max 0 (len b - 4) - 1 <= s0 <= len b - 2
    /\ (Z.max 0 (len b - 4) <= s0 -> utf8.RuneStart (utf8.at_ b s0) = true)
    /\ (forall j, s0 < j <= len b - 2 -> utf8.RuneStart (utf8.at_ b j) = false)
    /\ utf8.DecodeLastRune b
       = let '(r, size) := utf8.DecodeRune (drop (Z.to_nat (Z.max 0 s0)) b) in
         if negb (Z.max 0 s0 + size =? len b) then (utf8.RuneError, 1) else (r, size).
Proof.
  intros Hne Hlast. unfold utf8.DecodeLastRune.
  assert (Hlen : 1 <= len b).
  { destruct b as [|x b']; [done|]. rewrite len_cons. pose proof (len_nonneg b'). lia. }
  destruct (Z.eqb_spec (len b) 0) as [|_]; [lia|].
  destruct (Z.ltb_spec (utf8.at_ b (len b - 1)) utf8.RuneSelf) as [|_]; [lia|].
  unfold utf8.UTFMax. change (Z.to_nat 4) with 4%nat.
  assert (Hlim : (if len b - 4 <? 0 then 0 else len b - 4) = Z.max 0 (len b - 4)).
  { destruct (Z.ltb_spec (len b - 4) 0); lia. }
  rewrite Hlim.
  destruct (scanBack_spec 4 b (len b - 1 - 1) (Z.max 0 (len b - 4)))
    as (Hr & Hfound & Hnone); [lia|lia|].
  set (s0 := utf8.scanBack 4 b (len b - 1 - 1) (Z.max 0 (len b - 4))) in *.
  exists s0.
  assert (Hstart : (if s0 <? 0 then 0 else s0) = Z.max 0 s0).
  { destruct (Z.ltb_spec s0 0); lia. }
  rewrite Hstart.
  split; [lia|]. split; [done|]. split; [|done].
  intros j Hj. apply Hnone. lia.
Qed.

Lemma wellFormedChar_shape (c : list byte) :
  wellFormedChar c = true ->
  (exists b0, c = [b0] /\ byteZ b0 < 0x80)
  \/ (exists b0 rest,
        c = b0 :: rest /\ 0xC2 <= byteZ b0 <= 0xF4 /\ rest <> []
        /\ len c = sizeOf (byteZ b0) /\ Forall isContByte rest).
Proof.
  intros Hc.
  destruct c as [|b0 [|b1 [|b2 [|b3 [|b4 c]]]]]; try discriminate Hc;
    unfold wellFormedChar in Hc; cbn [fmap list_fmap] in Hc.
  - left. exists b0. split; [done|]. destruct (Z.leb_spec (byteZ b0) 127); [lia|done].
  - right. exists b0, [b1]. unfold isContByte. rewrite !len_cons. change (len (@nil byte)) with 0.
    unfold_ranges. by_cases; repeat split; try done; try lia;
      repeat constructor; by_cases.
  - right. exists b0, [b1; b2]. unfold isContByte. rewrite !len_cons.
    change (len (@nil byte)) with 0.
    unfold_ranges. by_cases; repeat split; try done; try lia;
      repeat constructor; by_cases.
  - right. exists b0, [b1; b2; b3]. unfold isContByte. rewrite !len_cons.
    change (len (@nil byte)) with 0.
    unfold_ranges. by_cases; repeat split; try done; try lia;
      repeat constructor; by_cases.
Qed.

Lemma at_byte (p : list byte) (i : Z) : exists x, utf8.at_ p i = byteZ x.
Proof. unfold utf8.at_. eauto. Qed.

Lemma at_cont (rest : list byte) (i : Z) :
  Forall isContByte rest -> 0 <= i < len rest ->
  utf8.RuneStart (utf8.at_ rest i) = false.
Proof.
  intros Hall Hi. unfold utf8.at_. rewrite RuneStart_byte.
  assert (Hx : isContByte (nth (Z.to_nat i) rest x00)).
  { rewrite Forall_forall in Hall. apply Hall. apply list_elem_of_In, nth_In.
    unfold len in Hi. lia. }
  unfold isContByte in Hx. now rewrite Hx.
Qed.

Lemma isCont_not_ascii (x : byte) : isContByte x -> utf8.RuneSelf <= byteZ x.
Proof. unfold isContByte, isCont, utf8.RuneSelf. intros H. by_cases. Qed.

(** When the sequence ends with a leading byte followed by one to three
    continuation bytes, the scan stops at the leading byte. *)
Lemma DecodeLastRune_lead (p : list byte) (b0 : byte) (rest : list byte) :
  utf8.RuneStart (byteZ b0) = true ->
  rest <> [] -> len rest <= 3 -> Forall isContByte rest ->
  utf8.DecodeLastRune (p ++ b0 :: rest)
  = let '(r, size) := utf8.DecodeRune (b0 :: rest) in
    if negb (len p + size =? len (p ++ b0 :: rest)) then (utf8.RuneError, 1) else (r, size).
Proof.
  intros Hlead Hne Hshort Hall.
  set (b := p ++ b0 :: rest).
  assert (Hlen : len b = len p + 1 + len rest).
  { unfold b. rewrite len_app, len_cons. lia. }
  assert (Hrest : 1 <= len rest).
  { destruct rest as [|x rest']; [done|]. rewrite len_cons.
    pose proof (len_nonneg rest'). lia. }
  pose proof (len_nonneg p) as Hp.
  assert (Hat : forall i, 0 <= i < len rest ->
                  utf8.at_ b (len p + 1 + i) = utf8.at_ rest i).
  { intros i Hi. unfold b. replace (len p + 1 + i) with (len p + (1 + i)) by lia.
    rewrite at_app by lia. unfold utf8.at_.
    replace (Z.to_nat (1 + i)) with (S (Z.to_nat i)) by lia. reflexivity. }
  assert (Hat0 : utf8.at_ b (len p) = byteZ b0).
  { pose proof (at_app p (b0 :: rest) 0 ltac:(lia)) as H0.
    rewrite Z.add_0_r in H0. exact H0. }
  destruct (DecodeLastRune_scan b) as (s0 & Hs0 & Hfound & Hnone & Hrun).
  { unfold b. now destruct p. }
  { replace (len b - 1) with (len p + 1 + (len rest - 1)) by lia.
    rewrite Hat by lia.
    destruct (at_byte rest (len rest - 1)) as [x Hx].
    pose proof (at_cont rest (len rest - 1) Hall ltac:(lia)) as Hc.
    rewrite Hx in *. rewrite RuneStart_byte in Hc.
    apply isCont_not_ascii. unfold isContByte. now destruct (isCont (byteZ x)). }
  assert (Hs : s0 = len p).
  { destruct (Z.lt_trichotomy s0 (len p)) as [Hlt|[Heq|Hgt]]; [|done|].
    - specialize (Hnone (len p) ltac:(lia)). rewrite Hat0 in Hnone. congruence.
    - specialize (Hfound ltac:(lia)).
      replace s0 with (len p + 1 + (s0 - (len p + 1))) in Hfound by lia.
      rewrite Hat in Hfound by lia.
      rewrite at_cont in Hfound by (done || lia). discriminate Hfound. }
  rewrite Hrun, Hs. replace (Z.max 0 (len p)) with (len p + 0) by lia.
  unfold b at 1. rewrite drop_app_len by lia. rewrite Z.add_0_r. reflexivity.
Qed.

Lemma DecodeLastRune_ascii (p : list byte) (x : byte) :
  byteZ x < utf8.RuneSelf -> utf8.DecodeLastRune (p ++ [x]) = (byteZ x, 1).
Proof.
  intros Hx. unfold utf8.DecodeLastRune.
  pose proof (len_nonneg p) as Hp.
  assert (Hlen : len (p ++ [x]) = len p + 1).
  { rewrite len_app. reflexivity. }
  assert (Hat : utf8.at_ (p ++ [x]) (len (p ++ [x]) - 1) = byteZ x).
  { rewrite Hlen. replace (len p + 1 - 1) with (len p + 0) by lia.
    now rewrite at_app. }
  rewrite Hat.
  destruct (Z.eqb_spec (len (p ++ [x])) 0) as [|_]; [lia|].
  destruct (Z.ltb_spec (byteZ x) utf8.RuneSelf) as [_|]; [reflexivity|lia].
Qed.

Lemma DecodeRune_short (b0 : byte) (rest : list byte) :
  0xC2 <= byteZ b0 <= 0xF4 -> len (b0 :: rest) < sizeOf (byteZ b0) ->
  utf8.DecodeRune (b0 :: rest) = (utf8.RuneError, 1).
Proof.
  intros Hb0 Hshort. rewrite DecodeRune_byRange. unfold decodeRuneByRange.
  simpl_at.
  assert (Hpos : 1 <= len (b0 :: rest)).
  { rewrite len_cons. pose proof (len_nonneg rest). lia. }
  revert Hshort Hpos. generalize (len (b0 :: rest)) as n.
  intros n Hshort Hpos. unfold_ranges. unfold sizeOf in *. by_cases; reflexivity.
Qed.

Lemma lead_RuneStart (b0 : byte) : 0xC2 <= byteZ b0 -> utf8.RuneStart (byteZ b0) = true.
Proof.
  intros Hb0. rewrite RuneStart_byte. unfold isCont. by_cases; reflexivity.
Qed.

(** A sequence that ends with a well-formed character has a last rune that
    decodes. *)
Lemma validTail_of_char (p c : list byte) :
  wellFormedChar c = true -> invalidTail (p ++ c) = false.
Proof.
  intros Hc. unfold invalidTail.
  destruct (wellFormedChar_shape c Hc)
    as [(b0 & -> & Hb0)|(b0 & rest & -> & Hb0 & Hne & Hlen & Hall)].
  - rewrite DecodeLastRune_ascii by done.
    unfold utf8.RuneError. destruct (Z.eqb_spec (byteZ b0) 65533); [lia|reflexivity].
  - assert (Hshort : len rest <= 3).
    { rewrite len_cons in Hlen. unfold sizeOf in Hlen. by_cases. }
    rewrite DecodeLastRune_lead; [|apply lead_RuneStart; lia|done..].
    destruct (DecodeRune_complete (b0 :: rest) [] Hc) as (r & Hrun & Hvalid).
    rewrite app_nil_r in Hrun. rewrite Hrun, len_app.
    rewrite Z.eqb_refl. cbn [negb].
    destruct (Z.eqb_spec r utf8.RuneError) as [Hr|]; [|reflexivity].
    destruct (Z.eqb_spec (len (b0 :: rest)) 1) as [Hone|]; [|reflexivity].
    exfalso. apply Hvalid. done.
Qed.

Lemma snoc_at (b : list byte) :
  b <> [] -> exists p x, b = p ++ [x] /\ utf8.at_ b (len b - 1) = byteZ x.
Proof.
  intros Hne. destruct (exists_last Hne) as (p & x & ->). exists p, x.
  split; [done|]. rewrite len_app. change (len [x]) with 1.
  replace (len p + 1 - 1) with (len p + 0) by lia. rewrite at_app by lia. reflexivity.
Qed.

(** Conversely, when the last rune of a sequence decodes, the sequence is
    empty or ends with a well-formed character. *)
Lemma validTail_char (b : list byte) :
  b <> [] -> invalidTail b = false -> endsWithChar b.
Proof.
  intros Hne Hvalid.
  destruct (snoc_at b Hne) as (p & x & Hb & Hat).
  destruct (Z.lt_ge_cases (byteZ x) utf8.RuneSelf) as [Hascii|Hhigh].
  - exists p, [x]. split; [done|]. unfold wellFormedChar. cbn [fmap list_fmap].
    unfold utf8.RuneSelf in Hascii. destruct (Z.leb_spec (byteZ x) 127); [done|lia].
  - destruct (DecodeLastRune_scan b) as (s0 & Hs0 & _ & _ & Hrun); [done|lia|].
    unfold invalidTail in Hvalid. rewrite Hrun in Hvalid.
    set (start := Z.max 0 s0) in *.
    assert (Hlen : 1 <= len b).
    { rewrite Hb, len_app. change (len [x]) with 1. pose proof (len_nonneg p). lia. }
    set (q := drop (Z.to_nat start) b) in *.
    assert (Hq : len q = len b - start).
    { unfold q, len in *. rewrite length_drop. lia. }
    destruct (utf8.DecodeRune q) as [r size] eqn:Hdec.
    destruct (Z.eqb_spec (start + size) (len b)) as [Hend|Hend]; cbn [negb] in Hvalid;
      [|discriminate Hvalid].
    destruct (DecodeRune_sound q r size) as [Hsize Hwf]; [| done | |].
    + intros Hnil. rewrite Hnil in Hq. change (len (@nil byte)) with 0 in Hq. lia.
    + intros [-> ->]. discriminate Hvalid.
    + exists (take (Z.to_nat start) b), q. split; [unfold q; now rewrite take_drop|].
      rewrite firstn_all2 in Hwf; [done|]. unfold len in *. lia.
Qed.

(** The last byte of a well-formed character is an ASCII byte or a
    continuation byte. *)
Lemma wellFormedChar_last (p : list byte) (x : byte) :
  wellFormedChar (p ++ [x]) = true -> byteZ x <= 0xBF.
Proof.
  intros Hc.
  destruct (wellFormedChar_shape _ Hc)
    as [(b0 & Heq & Hb0)|(b0 & rest & Heq & Hb0 & Hne & Hlen & Hall)].
  - destruct p as [|y [|z p]]; try discriminate Heq. injection Heq as ->. lia.
  - destruct (exists_last Hne) as (rest' & y & ->).
    change (b0 :: rest' ++ [y]) with ((b0 :: rest') ++ [y]) in Heq.
    apply app_inj_tail in Heq as [_ ->].
    apply Forall_app in Hall as [_ Hy]. apply Forall_inv in Hy.
    unfold isContByte, isCont in Hy. by_cases.
Qed.

(** A sequence that ends in the middle of a character has a last rune that
    does not decode: the loop of [trunc] trims it. *)
Lemma incomplete_invalidTail (b : list byte) :
  endsIncomplete b -> invalidTail b = true.
Proof.
  intros (p & c & c' & -> & Hc & Hc' & Hwf).
  destruct (wellFormedChar_shape _ Hwf)
    as [(b0 & Heq & Hb0)|(b0 & rest & Heq & Hb0 & Hne & Hlen & Hall)].
  - destruct c as [|y c]; [done|]. destruct c as [|z c], c' as [|z' c']; try done.
  - destruct c as [|y rest1]; [done|]. injection Heq as -> Hrest.
    assert (Hshort : len (b0 :: rest1) < sizeOf (byteZ b0)).
    { rewrite <- Hlen, len_app. destruct c' as [|z c']; [done|].
      rewrite (len_cons z c'). pose proof (len_nonneg c'). lia. }
    destruct rest1 as [|y rest1].
    + destruct (invalidTail (p ++ [b0])) eqn:Htail; [reflexivity|exfalso].
      destruct (validTail_char (p ++ [b0])) as (p' & d & Heq & Hd);
        [now destruct p|done|].
      assert (Hdne : d <> []) by (intros ->; discriminate Hd).
      destruct (exists_last Hdne) as (d' & z & ->).
      rewrite app_assoc in Heq. apply app_inj_tail in Heq as [_ ->].
      apply wellFormedChar_last in Hd. lia.
    + assert (Hconts : Forall isContByte (y :: rest1)).
      { rewrite <- Hrest in Hall. now apply Forall_app in Hall as [? _]. }
      unfold invalidTail.
      rewrite DecodeLastRune_lead; [|apply lead_RuneStart; lia|done| |done].
      * rewrite DecodeRune_short by done.
        now destruct (negb _).
      * rewrite len_cons in Hshort. unfold sizeOf in Hshort. by_cases.
Qed.

Lemma complete_not_incomplete (b : list byte) :
  endsWithChar b -> ~ endsIncomplete b.
Proof.
  intros (p & c & -> & Hc) Hinc.
  apply incomplete_invalidTail in Hinc. rewrite validTail_of_char in Hinc; done.
Qed.

(** ** [trunc] *)

Lemma truncLoop_unfold (fuel : nat) (b : list byte) :
  truncLoop (S fuel) b =
    if invalidTail b then b' ← sliceTo b (len b - 1); truncLoop fuel b' else Ok b.
Proof.
  unfold invalidTail. simpl. now destruct (utf8.DecodeLastRune b).
Qed.

Lemma invalidTail_nil : invalidTail [] = false.
Proof. reflexivity. Qed.

Lemma invalidTail_nonempty (b : list byte) : invalidTail b = true -> (0 < length b)%nat.
Proof.
  destruct b; [rewrite invalidTail_nil; discriminate|]. simpl. lia.
Qed.

(** The test of the loop, in words that do not mention the decoder: the last
    rune decodes exactly when the sequence is empty or ends with a complete,
    well-formed character. *)
Lemma validTail_iff (b : list byte) :
  invalidTail b = false <-> b = [] \/ endsWithChar b.
Proof.
  split.
  - intros Hvalid. destruct b as [|x b]; [now left|right].
    now apply validTail_char.
  - intros [->|(p & c & -> & Hc)]; [apply invalidTail_nil|now apply validTail_of_char].
Qed.

Lemma invalidTail_iff (b : list byte) :
  invalidTail b = true <-> b <> [] /\ ~ endsWithChar b.
Proof.
  pose proof (validTail_iff b) as Hiff.
  destruct (invalidTail b); split; try done.
  - intros _. split.
    + intros Hnil. destruct Hiff as [_ Hiff]. discriminate Hiff. now left.
    + intros Hc. destruct Hiff as [_ Hiff]. discriminate Hiff. now right.
  - intros [Hne Hc]. destruct Hiff as [Hiff _]. destruct Hiff as [|]; done.
Qed.

(** The loop stops, within the fuel [trunc] gives it, at the longest prefix
    of [b] whose last rune decodes. *)
Lemma truncLoop_spec (fuel : nat) : forall b : list byte,
  (length b < fuel)%nat ->
  exists k : nat,
    (k <= length b)%nat
    /\ truncLoop fuel b = Ok (take k b)
    /\ invalidTail (take k b) = false
    /\ forall j : nat, (k < j <= length b)%nat -> invalidTail (take j b) = true.
Proof.
  induction fuel as [|fuel IH]; intros b Hlen; [lia|].
  rewrite truncLoop_unfold.
  destruct (invalidTail b) eqn:Hb.
  - pose proof (invalidTail_nonempty b Hb) as Hne.
    rewrite sliceTo_ok by (unfold len; lia). simpl.
    set (b' := take (Z.to_nat (len b - 1)) b).
    assert (Hb' : length b' = (length b - 1)%nat).
    { unfold b', len. rewrite length_take. lia. }
    destruct (IH b') as (k & Hk & Hrun & Hstop & Hlonger); [lia|].
    assert (Htake : forall j, (j <= length b - 1)%nat -> take j b' = take j b).
    { intros j Hj. unfold b', len. rewrite take_take. f_equal. lia. }
    exists k. split; [lia|]. rewrite <- (Htake k) by lia.
    repeat split; try done.
    intros j Hj. destruct (decide (j = length b)) as [->|Hneq].
    + now rewrite firstn_all.
    + rewrite <- (Htake j) by lia. apply Hlonger. lia.
  - exists (length b). rewrite firstn_all. repeat split; try done. lia.
Qed.

Lemma truncLoop_terminates (b : list byte) :
  exists b', truncLoop (S (length b)) b = Ok b'.
Proof.
  destruct (truncLoop_spec (S (length b)) b) as (k & _ & H & _); [lia|]. eauto.
Qed.

(** What [trunc] returns for a limit that is not negative. *)
Lemma trunc_spec (s : gostring) (limit : Z) :
  0 <= limit ->
  (len s <= limit /\
   trunc s limit = Ok {| TruncatableString.Value := s;
                         TruncatableString.TruncatedByteCount := 0 |})
  \/
  (limit < len s /\
   exists k : nat,
     Z.of_nat k <= limit
     /\ trunc s limit = Ok {| TruncatableString.Value := take k s;
                              TruncatableString.TruncatedByteCount :=
                                clip32 (len s - Z.of_nat k) |}
     /\ invalidTail (take k s) = false
     /\ forall j : nat, Z.of_nat k < Z.of_nat j <= limit -> invalidTail (take j s) = true).
Proof.
  intros Hlim. unfold trunc.
  destruct (Z.gtb_spec (len s) limit) as [Hgt|Hle]; [right|left; done].
  split; [lia|].
  rewrite sliceTo_ok by lia. cbn [mbind result_bind].
  set (b := take (Z.to_nat limit) s).
  assert (Hb : length b = Z.to_nat limit).
  { unfold b. rewrite length_take. unfold len in Hgt. lia. }
  destruct (truncLoop_spec (S (length b)) b) as (k & Hk & Hrun & Hstop & Hlonger); [lia|].
  assert (Htake : forall j, (j <= Z.to_nat limit)%nat -> take j b = take j s).
  { intros j Hj. unfold b. rewrite take_take. f_equal. lia. }
  exists k. rewrite Hrun. cbn [mbind result_bind mret result_ret].
  rewrite (Htake k) in * by lia.
  split; [lia|]. split.
  - do 3 f_equal. unfold len in *. rewrite length_take. lia.
  - split; [done|]. intros j Hj. rewrite <- (Htake j) by lia. apply Hlonger. lia.
Qed.

Lemma trunc_total (s : gostring) (limit : Z) :
  0 <= limit -> exists r, trunc s limit = Ok r.
Proof.
  intros H. destruct (trunc_spec s limit H) as [[_ ->]|[_ (k & _ & -> & _)]]; eauto.
Qed.

Lemma trunc_panics (s : gostring) (limit : Z) : limit < 0 -> trunc s limit = Panic.
Proof.
  intros H. unfold trunc. pose proof (len_nonneg s).
  destruct (Z.gtb_spec (len s) limit); [|lia].
  now rewrite sliceTo_negative.
Qed.

(** C3 (as stated, refuted).  The claim ranges over every limit; for a
    negative one [len(s) > limit] holds and the slice expression [s[:limit]]
    panics, so [trunc] returns nothing. *)
Lemma trunc_negative_limit_returns_nothing :
  ~ exists r, trunc (lit "a") (-1) = Ok r.
Proof. intros [r H]. vm_compute in H. discriminate. Qed.

(** C3 (amended).  For every string [s] and every limit [0 <= n]: when
    [len s <= n], [trunc s n] is [s] itself with count 0; otherwise its value
    [b] is a prefix of the first [n] bytes, the last rune of [b] decodes, the
    last rune of every longer prefix of the first [n] bytes does not (so [b]
    is what is left after trimming trailing bytes one at a time while the
    tail is invalid), and the count is [clip32 (len s - len b)], which is
    [len s - len b] whenever that fits in 32 bits.  In words that do not
    mention the decoder: [b] is empty or ends with a complete well-formed
    character, and no longer prefix of the first [n] bytes does; a prefix
    that ends in the middle of a character is among those trimmed. *)
Theorem trunc_within_or_trimmed (s : gostring) (n : Z) (Hn : 0 <= n) :
  (len s <= n ->
   trunc s n = Ok {| TruncatableString.Value := s;
                     TruncatableString.TruncatedByteCount := 0 |})
  /\ (n < len s ->
      exists b : gostring,
        trunc s n = Ok {| TruncatableString.Value := b;
                          TruncatableString.TruncatedByteCount := clip32 (len s - len b) |}
        /\ b `prefix_of` take (Z.to_nat n) s
        /\ invalidTail b = false
        /\ (forall j : nat, len b < Z.of_nat j <= n -> invalidTail (take j s) = true)
        /\ (len s - len b <= MaxInt32 -> clip32 (len s - len b) = len s - len b)
        /\ (b = [] \/ endsWithChar b)
        /\ (forall j : nat, len b < Z.of_nat j <= n -> ~ endsWithChar (take j s))
        /\ (forall j : nat, Z.of_nat j <= n -> endsIncomplete (take j s) ->
            Z.of_nat j <> len b)).
Proof.
  destruct (trunc_spec s n Hn) as [[Hle Hrun]|[Hgt (k & Hk & Hrun & Hstop & Hlonger)]].
  - split; [done|lia].
  - split; [lia|]. intros _.
    assert (Hlen : len (take k s) = Z.of_nat k).
    { unfold len in *. rewrite length_take. lia. }
    exists (take k s). rewrite Hlen.
    split; [done|]. split.
    { replace (take k s) with (take k (take (Z.to_nat n) s))
        by (rewrite take_take; f_equal; lia).
      apply prefix_take. }
    split; [done|]. split; [done|]. split.
    { intros Hfit. apply clip32_id. unfold MinInt32. lia. }
    split; [now apply validTail_iff|]. split.
    + intros j Hj. apply invalidTail_iff. now apply Hlonger.
    + intros j Hj Hinc Heq. apply incomplete_invalidTail in Hinc.
      assert (j = k) as -> by lia. congruence.
Qed.

Lemma trunc_within_or_trimmed_witness :
  0 <= 4
  /\ exists b : gostring,
       trunc (lit "ab" ++ [xe2; x82; xac] ++ lit "c") 4
       = Ok {| TruncatableString.Value := b;
               TruncatableString.TruncatedByteCount :=
                 clip32 (len (lit "ab" ++ [xe2; x82; xac] ++ lit "c") - len b) |}
       /\ invalidTail b = false.
Proof.
  split; [lia|].
  destruct (trunc_within_or_trimmed (lit "ab" ++ [xe2; x82; xac] ++ lit "c") 4)
    as [_ H]; [lia|].
  destruct H as (b & Hrun & _ & Hstop & _); [vm_compute; reflexivity|].
  exists b. split; assumption.
Defined.

(** C4 (as stated, refuted).  A string that fits the limit is returned as it
    is, also when its last bytes are the beginning of a three-byte character
    ([e2 82] begins [e2 82 ac], the euro sign); and a negative limit makes
    [trunc] panic. *)
Lemma trunc_keeps_incomplete_tail_of_short_input :
  trunc [xe2; x82] 128 = Ok {| TruncatableString.Value := [xe2; x82];
                               TruncatableString.TruncatedByteCount := 0 |}
  /\ endsIncomplete [xe2; x82]
  /\ utf8.DecodeLastRune [xe2; x82] = (utf8.RuneError, 1)
  /\ utf8.DecodeLastRune [xe2; x82; xac] = (0x20AC, 3)
  /\ trunc [xe2; x82] (-1) = Panic.
Proof.
  split; [reflexivity|]. split.
  - exists [], [xe2; x82], [xac]. repeat split; done.
  - vm_compute. repeat split.
Qed.

(** C4 (amended).  For every byte sequence [s], valid or not, and every limit
    [0 <= n], [trunc] returns (no panic, no endless loop).  When [s] is longer
    than [n] the last rune of the returned value decodes: the value is empty
    or ends with a complete well-formed character, and so does not end in the
    middle of one.  When [s] fits, the value is [s] itself, so it ends
    cleanly exactly when [s] does. *)
Theorem trunc_value_ends_cleanly (s : gostring) (n : Z) (Hn : 0 <= n) :
  exists r : TruncatableString.t,
    trunc s n = Ok r
    /\ (n < len s ->
        invalidTail (TruncatableString.Value r) = false
        /\ (TruncatableString.Value r = [] \/ endsWithChar (TruncatableString.Value r))
        /\ ~ endsIncomplete (TruncatableString.Value r))
    /\ (len s <= n -> TruncatableString.Value r = s)
    /\ (invalidTail s = false -> invalidTail (TruncatableString.Value r) = false).
Proof.
  destruct (trunc_spec s n Hn) as [[Hle Hrun]|[Hgt (k & Hk & Hrun & Hstop & Hlonger)]];
    rewrite Hrun; eexists; (split; [reflexivity|]); cbn.
  - repeat split; try done; lia.
  - split; [|split; [lia|done]].
    intros _. split; [done|]. split; [now apply validTail_iff|].
    intros Hinc. apply incomplete_invalidTail in Hinc. congruence.
Qed.

Lemma trunc_value_ends_cleanly_witness :
  0 <= 1
  /\ exists r : TruncatableString.t,
       trunc [xe2; x82] 1 = Ok r /\ invalidTail (TruncatableString.Value r) = false.
Proof.
  split; [lia|].
  destruct (trunc_value_ends_cleanly [xe2; x82] 1) as (r & Hrun & Hclean & _); [lia|].
  exists r. split; [assumption|]. apply Hclean. vm_compute. reflexivity.
Defined.

(** The loop trims every trailing byte that does not decode, not only the
    beginning of a character: of ["a\xffb"] cut at 2 it drops [0xff], which
    begins no character. *)
Example trunc_trims_invalid_byte :
  trunc [x61; xff; x62] 2 = Ok {| TruncatableString.Value := [x61];
                                  TruncatableString.TruncatedByteCount := 2 |}
  /\ ~ endsIncomplete [x61; xff].
Proof.
  split; [reflexivity|].
  intros (p & c & c' & Heq & Hc & Hc' & Hwf).
  destruct (wellFormedChar_shape _ Hwf)
    as [(b0 & Hone & _)|(b0 & rest & Hshape & Hb0 & _)].
  - destruct c as [|y [|z c]], c' as [|z' c']; done.
  - destruct c as [|y c]; [done|]. injection Hshape as -> _.
    destruct p as [|a [|b p]]; cbn [app] in Heq.
    + injection Heq as Hy _. subst b0. change (byteZ x61) with 97 in Hb0. lia.
    + injection Heq as _ Hy _. subst b0. change (byteZ xff) with 255 in Hb0. lia.
    + injection Heq as _ _ Heq. destruct p; discriminate Heq.
Qed.

(** C8 (as stated, refuted).  [trunc "abc" 2] is [("ab", 1)], and truncating
    its value again gives [("ab", 0)]: the pairs differ in the count. *)
Lemma trunc_twice_changes_count :
  trunc (lit "abc") 2 = Ok {| TruncatableString.Value := lit "ab";
                              TruncatableString.TruncatedByteCount := 1 |}
  /\ trunc (lit "ab") 2 = Ok {| TruncatableString.Value := lit "ab";
                               TruncatableString.TruncatedByteCount := 0 |}
  /\ trunc (lit "ab") 2 <> trunc (lit "abc") 2.
Proof. vm_compute. repeat split. discriminate. Qed.

(** C8 (amended).  For every string [s] and limit [0 <= n], truncating the
    value of [trunc s n] again returns that same value, with count 0: [trunc]
    is idempotent on the value; the pair is reproduced exactly when the first
    truncation removed nothing. *)
Theorem trunc_value_idempotent (s : gostring) (n : Z) (Hn : 0 <= n) :
  exists r : TruncatableString.t,
    trunc s n = Ok r
    /\ trunc (TruncatableString.Value r) n
       = Ok {| TruncatableString.Value := TruncatableString.Value r;
               TruncatableString.TruncatedByteCount := 0 |}
    /\ (trunc (TruncatableString.Value r) n = trunc s n
        <-> TruncatableString.TruncatedByteCount r = 0).
Proof.
  destruct (trunc_spec s n Hn) as [[Hle Hrun]|[Hgt (k & Hk & Hrun & Hstop & Hlonger)]];
    rewrite Hrun; eexists; (split; [reflexivity|]); cbn.
  - split; [done|]. rewrite Hrun. done.
  - assert (Hfit : len (take k s) <= n).
    { unfold len in *. rewrite length_take. lia. }
    destruct (trunc_spec (take k s) n Hn) as [[_ Hagain]|[Hgt' _]]; [|lia].
    rewrite Hagain. split; [done|]. split.
    + intros [= <-]. done.
    + intros ->. done.
Qed.

Lemma trunc_value_idempotent_witness :
  0 <= 2
  /\ exists r : TruncatableString.t,
       trunc (lit "abc") 2 = Ok r
       /\ trunc (TruncatableString.Value r) 2
          = Ok {| TruncatableString.Value := TruncatableString.Value r;
                  TruncatableString.TruncatedByteCount := 0 |}.
Proof.
  split; [lia|].
  destruct (trunc_value_idempotent (lit "abc") 2) as (r & Hrun & Hagain & _); [lia|].
  exists r. split; assumption.
Defined.

(** ** [copyAttributes] *)

Lemma attributeValue_supported (value : trace.AttrValue) :
  supported value = true -> exists av, attributeValue value = Ok (Some av).
Proof.
  destruct value as [b|i|s|]; cbn; intros H; try discriminate; eauto.
  destruct (trunc_total s 256) as [r ->]; [lia|]. cbn. eauto.
Qed.

Lemma attributeValue_unsupported (value : trace.AttrValue) :
  supported value = false -> attributeValue value = Ok None.
Proof. destruct value; cbn; intros H; try discriminate; done. Qed.

(** An entry whose value has another type leaves the map and the counter as
    they are, whatever its key. *)
Lemma copyAttribute_unsupported st key value :
  supported value = false -> copyAttribute st (key, value) = Ok st.
Proof.
  intros H. destruct st as [m d]. unfold copyAttribute.
  now rewrite (attributeValue_unsupported value H).
Qed.

Lemma copyAttribute_rejected m d key value :
  rejected (key, value) -> copyAttribute (m, d) (key, value) = Ok (m, int32 (d + 1)).
Proof.
  intros [Hs Hk]. cbn in Hs, Hk. unfold copyAttribute.
  destruct (attributeValue_supported value Hs) as [av ->]. cbn.
  destruct (Z.gtb_spec (len key) 128); [done|lia].
Qed.

Lemma copyAttribute_copied m d key value :
  copied (key, value) ->
  exists av, attributeValue value = Ok (Some av)
    /\ copyAttribute (Some m, d) (key, value) = Ok (Some (<[key := av]> m), d).
Proof.
  intros [Hs Hk]. cbn in Hs, Hk. unfold copyAttribute.
  destruct (attributeValue_supported value Hs) as [av Hav]. exists av.
  rewrite Hav. cbn. destruct (Z.gtb_spec (len key) 128); [lia|done].
Qed.

Lemma rejected_or_copied entry :
  supported entry.2 = true -> {rejected entry} + {copied entry}.
Proof.
  intros H. unfold rejected, copied.
  destruct (decide (128 < len entry.1)); [left|right]; split; auto; lia.
Qed.

(** The counter after [n] increments of an [int32] that started at [d]. *)
Lemma int32_iter (n : nat) (d : Z) :
  Nat.iter n (λ d, int32 (d + 1)) (int32 d) = int32 (d + Z.of_nat n).
Proof.
  induction n as [|n IH]; [simpl; f_equal; lia|].
  simpl. rewrite IH, int32_succ. f_equal. lia.
Qed.

(** The loop over any enumeration of the entries without repeated keys. *)
Lemma copyAttributesLoop_spec (entries : list (gostring * trace.AttrValue)) :
  forall (m : gmap gostring AttributeValue.t) (d : Z),
  NoDup entries.*1 ->
  exists m' : gmap gostring AttributeValue.t,
    copyAttributesLoop entries (Some m, d)
      = Ok (Some m', Nat.iter (length (filter rejected entries)) (λ d, int32 (d + 1)) d)
    /\ (forall key value, (key, value) ∈ entries -> copied (key, value) ->
          exists av, attributeValue value = Ok (Some av) /\ m' !! key = Some av)
    /\ (forall key, (forall value, (key, value) ∈ entries -> ~ copied (key, value)) ->
          m' !! key = m !! key)
    /\ ((forall key, key ∈ entries.*1 -> m !! key = None) ->
          size m' = (size m + length (filter copied entries))%nat).
Proof.
  induction entries as [|[k0 v0] rest IH]; intros m d Hnodup.
  - exists m. cbn. split; [done|]. split; [|split].
    + intros key value Hin. now apply elem_of_nil in Hin.
    + done.
    + intros _. lia.
  - cbn in Hnodup. apply NoDup_cons in Hnodup as [Hfresh Hnodup].
    assert (Hk0 : forall value, (k0, value) ∉ rest).
    { intros value Hin. apply Hfresh. apply list_elem_of_fmap. now exists (k0, value). }
    destruct (supported v0) eqn:Hs; [destruct (rejected_or_copied (k0, v0) Hs) as [Hr|Hc]|].
    + (* the key is too long: counted *)
      assert (Hnc : ~ copied (k0, v0)) by (destruct Hr, 1; cbn in *; lia).
      destruct (IH m (int32 (d + 1)) Hnodup) as (m' & Hrun & Hin & Hout & Hsize).
      exists m'. cbn [copyAttributesLoop]. rewrite (copyAttribute_rejected _ _ _ _ Hr).
      cbn [mbind result_bind]. rewrite Hrun.
      rewrite filter_cons_True by done. rewrite (filter_cons_False copied) by done.
      split; [cbn [length]; now rewrite Nat.iter_succ_r|].
      split; [|split].
      * intros key value [[= -> ->]|Hrest]%elem_of_cons Hcopied; [done|eauto].
      * intros key Hnone. apply Hout. intros value Hv. apply Hnone. now right.
      * intros Hnone. apply Hsize. intros key Hkey. apply Hnone. cbn. now right.
    + (* the entry is assigned to the map *)
      assert (Hnr : ~ rejected (k0, v0)) by (destruct Hc, 1; cbn in *; lia).
      destruct (copyAttribute_copied m d k0 v0 Hc) as (av & Hav & Hstep).
      destruct (IH (<[k0 := av]> m) d Hnodup) as (m' & Hrun & Hin & Hout & Hsize).
      exists m'. cbn [copyAttributesLoop]. rewrite Hstep.
      cbn [mbind result_bind]. rewrite Hrun.
      rewrite filter_cons_False by done. rewrite (filter_cons_True copied) by done.
      split; [done|]. split; [|split].
      * intros key value [[= -> ->]|Hrest]%elem_of_cons Hcopied; [|eauto].
        exists av. split; [done|]. rewrite Hout; [apply lookup_insert_eq|].
        intros value Hv. now destruct (Hk0 value).
      * intros key Hnone. rewrite Hout.
        -- apply lookup_insert_ne. intros <-. apply (Hnone v0); [now left|done].
        -- intros value Hv. apply Hnone. now right.
      * intros Hnone. rewrite Hsize.
        -- rewrite map_size_insert_None by (apply Hnone; cbn; now left).
           cbn [length]. lia.
        -- intros key Hkey. rewrite lookup_insert_ne; [apply Hnone; cbn; now right|].
           intros <-. done.
    + (* another type: continue *)
      assert (Hnr : ~ rejected (k0, v0)) by (intros [H _]; cbn in H; congruence).
      assert (Hnc : ~ copied (k0, v0)) by (intros [H _]; cbn in H; congruence).
      destruct (IH m d Hnodup) as (m' & Hrun & Hin & Hout & Hsize).
      exists m'. cbn [copyAttributesLoop].
      rewrite (copyAttribute_unsupported _ _ _ Hs).
      cbn [mbind result_bind]. rewrite Hrun.
      rewrite filter_cons_False by done. rewrite (filter_cons_False copied) by done.
      split; [done|]. split; [|split].
      * intros key value [[= -> ->]|Hrest]%elem_of_cons Hcopied; [done|eauto].
      * intros key Hnone. apply Hout. intros value Hv. apply Hnone. now right.
      * intros Hnone. apply Hsize. intros key Hkey. apply Hnone. cbn. now right.
Qed.

Lemma size_filter_entries (P : gostring * trace.AttrValue -> Prop)
    `{!forall e, Decision (P e)} (in_ : gmap gostring trace.AttrValue) :
  size (filter P in_) = length (filter P (map_to_list in_)).
Proof.
  rewrite map_filter_alt. apply map_size_list_to_map.
  eapply sublist_NoDup; [apply (NoDup_fst_map_to_list in_)|].
  apply fmap_sublist, sublist_filter.
Qed.

(** Go leaves the order of a [range] over a map open: every enumeration of
    the entries gives the same map and the same count. *)
Lemma copyAttributesLoop_order (entries entries' : list (gostring * trace.AttrValue))
    (m : gmap gostring AttributeValue.t) (d : Z) :
  entries ≡ₚ entries' -> NoDup entries.*1 ->
  copyAttributesLoop entries (Some m, d) = copyAttributesLoop entries' (Some m, d).
Proof.
  intros Hperm Hnodup.
  assert (Hnodup' : NoDup entries'.*1) by now rewrite <- Hperm.
  destruct (copyAttributesLoop_spec entries m d Hnodup) as (m1 & -> & Hin1 & Hout1 & _).
  destruct (copyAttributesLoop_spec entries' m d Hnodup') as (m2 & -> & Hin2 & Hout2 & _).
  assert (Hlen : length (filter rejected entries) = length (filter rejected entries'))
    by now rewrite Hperm.
  rewrite Hlen. do 3 f_equal. apply map_eq. intros key.
  destruct (decide (Exists (λ e, e.1 = key /\ copied e) entries)) as [Hex|Hno].
  - apply Exists_exists in Hex as ([k value] & Hin & Hk & Hc). cbn in Hk. subst k.
    destruct (Hin1 key value Hin Hc) as (av1 & Hav1 & ->).
    destruct (Hin2 key value) as (av2 & Hav2 & ->); [now rewrite <- Hperm|done|].
    congruence.
  - assert (Hnone : forall value, (key, value) ∈ entries -> ~ copied (key, value)).
    { intros value Hin Hc. apply Hno. apply Exists_exists. now exists (key, value). }
    rewrite Hout1 by done. rewrite Hout2; [done|].
    intros value Hin. apply Hnone. now rewrite Hperm.
Qed.

Lemma copyAttributes_empty (out : option Span_Attributes.t)
    (in_ : gmap gostring trace.AttrValue) :
  in_ = ∅ -> copyAttributes out in_ = Ok out.
Proof. intros ->. reflexivity. Qed.

Lemma copyAttributes_spec (out : option Span_Attributes.t)
    (in_ : gmap gostring trace.AttrValue) :
  in_ <> ∅ ->
  exists m' : gmap gostring AttributeValue.t,
    copyAttributes out in_
      = Ok (Some {| Span_Attributes.AttributeMap := Some m';
                    Span_Attributes.DroppedAttributesCount :=
                      int32 (Z.of_nat (size (filter rejected in_))) |})
    /\ (forall key value, in_ !! key = Some value -> copied (key, value) ->
          exists av, attributeValue value = Ok (Some av) /\ m' !! key = Some av)
    /\ (forall key, (forall value, in_ !! key = Some value -> ~ copied (key, value)) ->
          m' !! key = attributeMap out !! key)
    /\ (attributeMap out = ∅ -> size m' = size (filter copied in_)).
Proof.
  intros Hne. unfold copyAttributes.
  assert (Hsize : size in_ <> 0%nat) by now apply map_size_non_empty_iff.
  destruct (Z.eqb_spec (Z.of_nat (size in_)) 0) as [|_]; [lia|].
  set (m0 := attributeMap out).
  assert (Hm0 : match Span_Attributes.AttributeMap
                        match out with
                        | Some out0 => out0
                        | None => {| Span_Attributes.AttributeMap := None;
                                     Span_Attributes.DroppedAttributesCount := 0 |}
                        end with
                | Some m => Some m
                | None => Some ∅
                end = Some m0).
  { unfold m0. destruct out as [[[m|] d]|]; reflexivity. }
  rewrite Hm0.
  destruct (copyAttributesLoop_spec (map_to_list in_) m0 0 (NoDup_fst_map_to_list in_))
    as (m' & Hrun & Hin & Hout & Hcount).
  exists m'. rewrite Hrun. cbn [mbind result_bind].
  rewrite !size_filter_entries.
  split; [|split; [|split]].
  - do 3 f_equal. etransitivity; [exact (int32_iter _ 0)|]. f_equal.
  - intros key value Hlook. apply Hin. now apply elem_of_map_to_list.
  - intros key Hnone. apply Hout. intros value Hv. apply Hnone.
    now apply elem_of_map_to_list.
  - intros Hempty. rewrite Hcount; [rewrite Hempty, map_size_empty; lia|].
    intros key _. rewrite Hempty. apply lookup_empty.
Qed.

Lemma copyAttributes_total (out : option Span_Attributes.t)
    (in_ : gmap gostring trace.AttrValue) :
  exists attributes, copyAttributes out in_ = Ok attributes.
Proof.
  destruct (decide (in_ = ∅)) as [->|Hne]; [now exists out|].
  destruct (copyAttributes_spec out in_ Hne) as (m' & -> & _). eauto.
Qed.

(** C5 (as stated, refuted).  The claim has the count incremented for every
    key longer than 128 bytes.  For a 130-byte key whose value is of another
    type the entry is dropped and the count stays 0, although one key of the
    map is longer than 128 bytes. *)
Lemma long_key_with_unsupported_value_is_not_counted :
  len key130 = 130
  /\ copyAttribute (Some ∅, 0) (key130, trace.VOther) = Ok (Some ∅, 0)
  /\ copyAttributes None attrsLongKeyFloat
     = Ok (Some {| Span_Attributes.AttributeMap := Some ∅;
                   Span_Attributes.DroppedAttributesCount := 0 |})
  /\ size (filter (λ entry : gostring * trace.AttrValue, 128 < len entry.1)
                  attrsLongKeyFloat) = 1%nat.
Proof. vm_compute. repeat split. Qed.

(** C5 (amended).  In [copyAttributes], an entry whose value is not a
    boolean, 64-bit integer or string is dropped without a change of the
    count, whatever its key; an entry whose value is of one of these types
    and whose key is longer than 128 bytes is dropped and increments the
    count; and the final count is the number of the entries of the second
    kind (as long as that number fits the 32-bit counter). *)
Theorem copyAttributes_drop_accounting
    (out : option Span_Attributes.t) (in_ : gmap gostring trace.AttrValue)
    (Hne : in_ <> ∅)
    (Hfit : Z.of_nat (size (filter rejected in_)) <= MaxInt32) :
  (forall st key value, supported value = false ->
     copyAttribute st (key, value) = Ok st)
  /\ (forall m d key value, supported value = true -> 128 < len key ->
        copyAttribute (m, d) (key, value) = Ok (m, int32 (d + 1)))
  /\ exists o : Span_Attributes.t,
       copyAttributes out in_ = Ok (Some o)
       /\ (forall key value, in_ !! key = Some value ->
             supported value = false \/ 128 < len key ->
             attributeMap (Some o) !! key = attributeMap out !! key)
       /\ Span_Attributes.DroppedAttributesCount o
          = Z.of_nat (size (filter rejected in_)).
Proof.
  split; [intros; now apply copyAttribute_unsupported|].
  split; [intros; now apply copyAttribute_rejected|].
  destruct (copyAttributes_spec out in_ Hne) as (m' & -> & _ & Hout & _).
  eexists. split; [reflexivity|]. cbn. split.
  - intros key value Hlook Hdrop. apply Hout. intros value' Hlook' [Hs Hk].
    cbn in Hs, Hk. assert (value' = value) by congruence. subst value'.
    destruct Hdrop; [congruence|lia].
  - apply int32_id. unfold MinInt32. lia.
Qed.

Lemma copyAttributes_drop_accounting_witness :
  attrsMixed <> ∅
  /\ Z.of_nat (size (filter rejected attrsMixed)) <= MaxInt32
  /\ exists o : Span_Attributes.t,
       copyAttributes None attrsMixed = Ok (Some o)
       /\ Span_Attributes.DroppedAttributesCount o = 1.
Proof.
  assert (Hne : attrsMixed <> ∅) by (apply map_size_non_empty_iff; vm_compute; lia).
  assert (Hfit : Z.of_nat (size (filter rejected attrsMixed)) <= MaxInt32)
    by (vm_compute; discriminate).
  split; [exact Hne|]. split; [exact Hfit|].
  destruct (copyAttributes_drop_accounting None attrsMixed Hne Hfit)
    as (_ & _ & o & Hrun & _ & Hcount).
  exists o. split; [exact Hrun|]. rewrite Hcount. vm_compute. reflexivity.
Defined.

(** C10.  The type switch comes before the key-length test: an entry whose
    key is longer than 128 bytes and whose value is not a boolean, 64-bit
    integer or string leaves the attribute map and the counter as they are,
    and the final count is the number of entries with a key longer than 128
    bytes and a value of a supported type (as long as that number fits the
    32-bit counter; with an empty input the count of [*out] is not
    touched). *)
Theorem copyAttributes_type_check_precedes_key_check
    (out : option Span_Attributes.t) (in_ : gmap gostring trace.AttrValue)
    (Hfit : Z.of_nat (size (filter rejected in_)) <= MaxInt32) :
  (forall st key value, 128 < len key -> supported value = false ->
     copyAttribute st (key, value) = Ok st)
  /\ exists attributes : option Span_Attributes.t,
       copyAttributes out in_ = Ok attributes
       /\ (forall key value, in_ !! key = Some value ->
             128 < len key -> supported value = false ->
             attributeMap attributes !! key = attributeMap out !! key)
       /\ droppedAttributes attributes
          = if decide (in_ = ∅) then droppedAttributes out
            else Z.of_nat (size (filter rejected in_)).
Proof.
  split; [intros; now apply copyAttribute_unsupported|].
  case_decide as Hin.
  - exists out. split; [now apply copyAttributes_empty|]. done.
  - destruct (copyAttributes_spec out in_ Hin) as (m' & -> & _ & Hout & _).
    eexists. split; [reflexivity|]. cbn. split.
    + intros key value Hlook Hk Hs. apply Hout. intros value' Hlook' [Hs' _].
      cbn in Hs'. congruence.
    + apply int32_id. unfold MinInt32. lia.
Qed.

Lemma copyAttributes_type_check_precedes_key_check_witness :
  Z.of_nat (size (filter rejected attrsMixed)) <= MaxInt32
  /\ size (filter (λ entry : gostring * trace.AttrValue, 128 < len entry.1) attrsMixed)
     = 2%nat
  /\ exists attributes : option Span_Attributes.t,
       copyAttributes None attrsMixed = Ok attributes
       /\ droppedAttributes attributes = 1.
Proof.
  assert (Hfit : Z.of_nat (size (filter rejected attrsMixed)) <= MaxInt32)
    by (vm_compute; discriminate).
  split; [exact Hfit|]. split; [vm_compute; reflexivity|].
  destruct (copyAttributes_type_check_precedes_key_check None attrsMixed Hfit)
    as (_ & attributes & Hrun & _ & Hcount).
  exists attributes. split; [exact Hrun|]. rewrite Hcount. vm_compute. reflexivity.
Defined.

(** ** Time events *)

Lemma pushEvents_spec (events : list Span_TimeEvent.t) : forall te,
  timeEvents (pushEvents te events) = timeEvents te ++ events
  /\ droppedAnnotations (pushEvents te events) = droppedAnnotations te
  /\ droppedMessageEvents (pushEvents te events) = droppedMessageEvents te
  /\ (pushEvents te events = None <-> te = None /\ events = []).
Proof.
  induction events as [|event events IH]; intros te.
  - cbn. rewrite app_nil_r. repeat split; try done. now intros [-> _].
  - change (pushEvents te (event :: events))
      with (pushEvents (Some (appendTimeEvent (ensureTimeEvents te) event)) events).
    destruct (IH (Some (appendTimeEvent (ensureTimeEvents te) event)))
      as (H1 & H2 & H3 & H4).
    rewrite H1, H2, H3. split; [|split; [|split]].
    + destruct te; cbn; rewrite <- ?app_assoc; done.
    + destruct te; done.
    + destruct te; done.
    + split.
      * intros H. apply H4 in H as [? _]. discriminate.
      * intros [_ [=]].
Qed.

Lemma annotationEvent_total (a : trace.Annotation.t) :
  exists event, annotationEvent a = Ok event /\ isAnnotation event.
Proof.
  unfold annotationEvent.
  destruct (trunc_total (trace.Annotation.Message a) 256) as [d ->]; [lia|].
  destruct (copyAttributes_total None (trace.Annotation.Attributes a)) as [attrs ->].
  cbn. eexists. split; [reflexivity|]. exact I.
Qed.

(** The annotation loop, entered with [a] events emitted so far: it emits
    the first [32 - a] items and, when items remain after them, stops with
    the dropped count [n - i'] for the index [i'] it has reached. *)
Lemma annotationsLoop_spec (as_ : list trace.Annotation.t) :
  forall (n i a d : Z) (te : option Span_TimeEvents.t),
  exists events : list Span_TimeEvent.t,
    Forall2 (λ x event, annotationEvent x = Ok event)
            (take (Z.to_nat (maxAnnotationEventsPerSpan - a)) as_) events
    /\ annotationsLoop n i as_ (a, d, te)
       = Ok (a + len events,
             (if decide (Z.to_nat (maxAnnotationEventsPerSpan - a) < length as_)%nat
              then n - (i + len events) else d),
             pushEvents te events).
Proof.
  unfold maxAnnotationEventsPerSpan.
  induction as_ as [|x rest IH]; intros n i a d te.
  - exists []. rewrite take_nil. split; [constructor|]. cbn.
    case_decide; [lia|]. do 3 f_equal. unfold len. cbn. lia.
  - cbn [annotationsLoop]. unfold maxAnnotationEventsPerSpan.
    destruct (Z.geb_spec a 32) as [Hfull|Hroom].
    + exists []. replace (Z.to_nat (32 - a)) with 0%nat by lia.
      split; [constructor|]. cbn [length]. case_decide; [|lia].
      unfold len. cbn. do 3 f_equal; lia.
    + destruct (annotationEvent_total x) as (event & Hevent & _).
      rewrite Hevent. cbn [mbind result_bind].
      destruct (IH n (i + 1) (a + 1) d
                  (Some (appendTimeEvent (ensureTimeEvents te) event)))
        as (events & Hall & Hrun).
      exists (event :: events).
      replace (Z.to_nat (32 - a)) with (S (Z.to_nat (32 - (a + 1)))) by lia.
      split; [constructor; assumption|]. rewrite Hrun. cbn [length].
      unfold len. cbn [length pushEvents foldl].
      repeat case_decide; try lia; do 3 f_equal; lia.
Qed.

Lemma messageEvent_kind (e : trace.MessageEvent.t) : isMessageEvent (messageEvent e).
Proof. exact I. Qed.

Lemma messageEventsLoop_spec (es : list trace.MessageEvent.t) :
  forall (n i a d : Z) (te : option Span_TimeEvents.t),
  let events := messageEvent <$> take (Z.to_nat (maxMessageEventsPerSpan - a)) es in
  messageEventsLoop n i es (a, d, te)
  = Ok (a + len events,
        (if decide (Z.to_nat (maxMessageEventsPerSpan - a) < length es)%nat
         then n - (i + len events) else d),
        pushEvents te events).
Proof.
  unfold maxMessageEventsPerSpan.
  induction es as [|x rest IH]; intros n i a d te; cbn zeta.
  - rewrite take_nil. cbn. case_decide; [lia|]. do 3 f_equal. unfold len. cbn. lia.
  - cbn [messageEventsLoop]. unfold maxMessageEventsPerSpan.
    destruct (Z.geb_spec a 128) as [Hfull|Hroom].
    + replace (Z.to_nat (128 - a)) with 0%nat by lia.
      cbn [length]. case_decide; [|lia].
      unfold len. cbn. do 3 f_equal; lia.
    + rewrite IH.
      replace (Z.to_nat (128 - a)) with (S (Z.to_nat (128 - (a + 1)))) by lia.
      cbn [take firstn fmap list_fmap length]. unfold len. cbn [length pushEvents foldl].
      rewrite !length_fmap.
      repeat case_decide; try lia; do 3 f_equal; lia.
Qed.

Lemma recordDropped_spec (dA dM : Z) (te : option Span_TimeEvents.t) :
  droppedAnnotations te = 0 -> droppedMessageEvents te = 0 ->
  timeEvents (recordDropped dA dM te) = timeEvents te
  /\ droppedAnnotations (recordDropped dA dM te) = clip32 dA
  /\ droppedMessageEvents (recordDropped dA dM te) = clip32 dM.
Proof.
  intros HA HM. unfold recordDropped.
  destruct (Z.eqb_spec dA 0) as [->|HdA], (Z.eqb_spec dM 0) as [->|HdM]; cbn.
  - now rewrite HA, HM.
  - destruct te; done.
  - destruct te; done.
  - destruct te; done.
Qed.

(** ** Stack frames and links *)

Lemma stackFrame_total (frame : runtime.Frame.t) :
  exists f, stackFrame frame = Ok f.
Proof.
  unfold stackFrame.
  destruct (trunc_total (runtime.Frame.Function frame) 1024) as [fn ->]; [lia|].
  destruct (trunc_total (runtime.Frame.File frame) 256) as [file ->]; [lia|].
  cbn. eauto.
Qed.

(** The frame loop over an iterator that holds at least one frame: the first
    [128 - len sf] frames are appended, one is counted for each of the
    others. *)
Lemma framesLoop_spec (frames : list runtime.Frame.t) :
  forall (frame : runtime.Frame.t) (sf : list StackTrace_StackFrame.t) (d : Z) (fuel : nat),
  (length frames < fuel)%nat ->
  exists out : list StackTrace_StackFrame.t,
    Forall2 (λ fr f, stackFrame fr = Ok f)
            (take (Z.to_nat (128 - len sf)) (frame :: frames)) out
    /\ framesLoop fuel (frame :: frames) sf d
       = Ok (sf ++ out, d + len (drop (Z.to_nat (128 - len sf)) (frame :: frames))).
Proof.
  induction frames as [|frame' frames IH]; intros frame sf d fuel Hfuel;
    (destruct fuel as [|fuel]; [lia|]); cbn [framesLoop runtime.Frames.Next].
  - destruct (Z.geb_spec (len sf) 128) as [Hfull|Hroom].
    + exists []. replace (Z.to_nat (128 - len sf)) with 0%nat by lia.
      split; [constructor|]. cbn. rewrite app_nil_r. do 2 f_equal.
    + destruct (stackFrame_total frame) as [f Hf]. rewrite Hf. exists [f].
      replace (Z.to_nat (128 - len sf)) with (S (Z.to_nat (128 - len sf - 1))) by lia.
      cbn [firstn skipn]. rewrite take_nil, drop_nil.
      split; [constructor; [assumption|constructor]|]. cbn. do 2 f_equal.
      unfold len. cbn. lia.
  - assert (Hmore : negb (negb (len (frame' :: frames) =? 0)) = false).
    { unfold len. cbn [length]. destruct (Z.eqb_spec (Z.of_nat (S (length frames))) 0);
        [lia|reflexivity]. }
    destruct (Z.geb_spec (len sf) 128) as [Hfull|Hroom].
    + cbn [mbind result_bind]. rewrite Hmore.
      destruct (IH frame' sf (d + 1) fuel) as (out & Hall & Hrun); [cbn in Hfuel; lia|].
      exists out. replace (Z.to_nat (128 - len sf)) with 0%nat in * by lia.
      split; [inversion Hall; constructor|]. rewrite Hrun.
      do 2 f_equal. unfold len. cbn [drop skipn length]. lia.
    + destruct (stackFrame_total frame) as [f Hf]. rewrite Hf.
      cbn [mbind result_bind]. rewrite Hmore.
      destruct (IH frame' (sf ++ [f]) d fuel) as (out & Hall & Hrun); [cbn in Hfuel; lia|].
      exists (f :: out).
      assert (Hk : Z.to_nat (128 - len sf) = S (Z.to_nat (128 - len (sf ++ [f])))).
      { rewrite len_app. change (len [f]) with 1. lia. }
      rewrite Hk. split; [constructor; assumption|]. rewrite Hrun.
      rewrite <- app_assoc. reflexivity.
Qed.

Lemma stackTrace_spec (pcs : list runtime.Frame.t) :
  pcs <> [] ->
  exists out : list StackTrace_StackFrame.t,
    Forall2 (λ fr f, stackFrame fr = Ok f) (take 128 pcs) out
    /\ stackTrace (Some pcs)
       = Ok (Some {| StackTrace.StackFrames :=
                       Some {| StackTrace_StackFrames.Frame := out;
                               StackTrace_StackFrames.DroppedFramesCount :=
                                 clip32 (len (drop 128 pcs)) |} |}).
Proof.
  intros Hne. destruct pcs as [|frame frames]; [done|].
  unfold stackTrace.
  destruct (framesLoop_spec frames frame [] 0 (S (length (frame :: frames))))
    as (out & Hall & Hrun); [cbn; lia|].
  exists out. split; [exact Hall|]. rewrite Hrun. reflexivity.
Qed.

Lemma stackTrace_total (pcs : option (list runtime.Frame.t)) :
  exists st, stackTrace pcs = Ok st /\ (st = None <-> pcs = None).
Proof.
  destruct pcs as [[|frame frames]|].
  - eexists. split; [vm_compute; reflexivity|]. split; discriminate.
  - destruct (stackTrace_spec (frame :: frames)) as (out & _ & ->); [done|].
    eexists. split; [reflexivity|]. split; discriminate.
  - exists None. done.
Qed.

Lemma link_total (projectID : gostring) (l : trace.Link.t) :
  exists lk, link projectID l = Ok lk.
Proof.
  unfold link.
  destruct (copyAttributes_total None (trace.Link.Attributes l)) as [attrs ->].
  cbn. eauto.
Qed.

Lemma linksLoop_total (projectID : gostring) (ls : list trace.Link.t) :
  forall acc, exists lks,
    linksLoop projectID ls acc = Ok (acc ++ lks) /\ length lks = length ls.
Proof.
  induction ls as [|l rest IH]; intros acc; cbn.
  - exists []. now rewrite app_nil_r.
  - destruct (link_total projectID l) as [lk ->]. cbn.
    destruct (IH (acc ++ [lk])) as (lks & -> & Hlen).
    exists (lk :: lks). rewrite <- app_assoc. cbn. auto.
Qed.

Lemma links_total (projectID : gostring) (ls : list trace.Link.t) :
  exists lks, links projectID ls = Ok lks.
Proof.
  unfold links. destruct (len ls >? 0); [|eauto].
  destruct (linksLoop_total projectID ls []) as (lks & -> & _). cbn. eauto.
Qed.

(** ** [protoFromSpanData] *)

Lemma len_drop {A : Type} (n : nat) (l : list A) :
  len (drop n l) = Z.max 0 (len l - Z.of_nat n).
Proof. unfold len. rewrite length_drop. lia. Qed.

(** Every present span is encoded, and the parts of the result are the
    results of the steps of the source. *)
Lemma protoFromSpanData_spec (s : trace.SpanData.t) (projectID : gostring) :
  exists (sp : Span.t) (annotations : list Span_TimeEvent.t),
    protoFromSpanData (Some s) projectID = Ok (Some sp)
    /\ copyAttributes None (trace.SpanData.Attributes s) = Ok (Span.Attributes sp)
    /\ stackTrace (trace.SpanData.StackTrace s) = Ok (Span.StackTrace sp)
    /\ links projectID (trace.SpanData.Links s) = Ok (Span.Links sp)
    /\ Forall2 (λ a event, annotationEvent a = Ok event)
               (take 32 (trace.SpanData.Annotations s)) annotations
    /\ annotationsLoop (len (trace.SpanData.Annotations s)) 0
         (trace.SpanData.Annotations s) (0, 0, None)
       = Ok (len annotations, len (drop 32 (trace.SpanData.Annotations s)),
             pushEvents None annotations)
    /\ timeEvents (Span.TimeEvents sp)
       = annotations ++ (messageEvent <$> take 128 (trace.SpanData.MessageEvents s))
    /\ droppedAnnotations (Span.TimeEvents sp)
       = clip32 (len (drop 32 (trace.SpanData.Annotations s)))
    /\ droppedMessageEvents (Span.TimeEvents sp)
       = clip32 (len (drop 128 (trace.SpanData.MessageEvents s))).
Proof.
  unfold protoFromSpanData.
  destruct (trunc_total (trace.SpanData.Name s) 128) as [displayName ->]; [lia|].
  destruct (copyAttributes_total None (trace.SpanData.Attributes s)) as [attributes Hattrs].
  destruct (stackTrace_total (trace.SpanData.StackTrace s)) as (st & Hst & _).
  destruct (links_total projectID (trace.SpanData.Links s)) as [lks Hlks].
  set (as_ := trace.SpanData.Annotations s).
  set (es := trace.SpanData.MessageEvents s).
  destruct (annotationsLoop_spec as_ (len as_) 0 0 0 None) as (annotations & Hall & HrunA).
  change (Z.to_nat (maxAnnotationEventsPerSpan - 0)) with 32%nat in *.
  assert (HlenA : length annotations = Nat.min 32 (length as_)).
  { rewrite <- (Forall2_length _ _ _ Hall). apply length_take. }
  assert (HdA : (if decide (32 < length as_)%nat
                 then len as_ - (0 + len annotations) else 0) = len (drop 32 as_)).
  { rewrite len_drop. unfold len. case_decide; lia. }
  rewrite HdA in HrunA. rewrite Z.add_0_l in HrunA.
  pose proof (messageEventsLoop_spec es (len es) 0 0 0 (pushEvents None annotations))
    as HrunM. cbn zeta in HrunM.
  change (Z.to_nat (maxMessageEventsPerSpan - 0)) with 128%nat in *.
  set (messages := messageEvent <$> take 128 es) in *.
  assert (HdM : (if decide (128 < length es)%nat
                 then len es - (0 + len messages) else 0) = len (drop 128 es)).
  { rewrite len_drop. unfold messages, len. rewrite length_fmap, length_take.
    case_decide; lia. }
  rewrite HdM in HrunM.
  cbn [mbind result_bind]. rewrite Hattrs. cbn [mbind result_bind].
  rewrite HrunA. cbn [mbind result_bind]. rewrite HrunM. cbn [mbind result_bind].
  rewrite Hst. cbn [mbind result_bind]. rewrite Hlks. cbn [mbind result_bind].
  eexists. exists annotations. split; [reflexivity|]. cbn [Span.Attributes Span.StackTrace
    Span.Links Span.TimeEvents].
  destruct (pushEvents_spec annotations None) as (HtA & HaA & HmA & _).
  destruct (pushEvents_spec messages (pushEvents None annotations)) as (HtM & HaM & HmM & _).
  destruct (recordDropped_spec (len (drop 32 as_)) (len (drop 128 es))
              (pushEvents (pushEvents None annotations) messages)) as (Ht & Ha & Hm).
  { now rewrite HaM, HaA. }
  { now rewrite HmM, HmA. }
  repeat split; try done.
  rewrite Ht, HtM, HtA. reflexivity.
Qed.

Lemma filter_all {A : Type} (P : A -> Prop) `{!forall x, Decision (P x)} (l : list A) :
  Forall P l -> filter P l = l.
Proof.
  induction 1 as [|x l Hx _ IH]; [done|].
  rewrite filter_cons_True by done. now rewrite IH.
Qed.

Lemma filter_none {A : Type} (P : A -> Prop) `{!forall x, Decision (P x)} (l : list A) :
  Forall (λ x, ~ P x) l -> filter P l = [].
Proof.
  induction 1 as [|x l Hx _ IH]; [done|].
  now rewrite filter_cons_False.
Qed.

Lemma annotationEvents_kind (as_ : list trace.Annotation.t)
    (events : list Span_TimeEvent.t) :
  Forall2 (λ a event, annotationEvent a = Ok event) as_ events ->
  Forall isAnnotation events.
Proof.
  induction 1 as [|a event as_ events Hevent _ IH]; constructor; [|assumption].
  destruct (annotationEvent_total a) as (event' & Hevent' & Hkind). congruence.
Qed.

Lemma split_time_events (annotations : list Span_TimeEvent.t)
    (es : list trace.MessageEvent.t) :
  Forall isAnnotation annotations ->
  filter isAnnotation (annotations ++ (messageEvent <$> es)) = annotations
  /\ filter isMessageEvent (annotations ++ (messageEvent <$> es)) = messageEvent <$> es.
Proof.
  intros Hkind. rewrite !filter_app.
  rewrite (filter_all isAnnotation annotations Hkind).
  rewrite (filter_none isAnnotation (messageEvent <$> es)).
  2: { apply Forall_fmap, Forall_forall. intros e _ H. exact H. }
  rewrite (filter_none isMessageEvent annotations).
  2: { eapply Forall_impl; [exact Hkind|]. intros event Ha Hm.
       unfold isAnnotation, isMessageEvent in *.
       now destruct (Span_TimeEvent.Value event). }
  rewrite (filter_all isMessageEvent (messageEvent <$> es)).
  2: { apply Forall_fmap, Forall_forall. intros e _. exact I. }
  now rewrite app_nil_r.
Qed.

(** C1.  For every span record the encoded output holds at most 32
    annotation time-events and at most 128 message-event time-events; the
    annotation events are the events of the first 32 annotations, in their
    order, the message events those of the first 128 message events, in their
    order; the annotation loop leaves, as its dropped count, the number of
    items from index 32 to the end of the list (and so does the message loop
    from index 128), and the two fields of the output hold these counts as
    [clip32] stores them. *)
Theorem time_events_are_capped_prefixes (s : trace.SpanData.t) (projectID : gostring) :
  exists (sp : Span.t) (annotations : list Span_TimeEvent.t),
    protoFromSpanData (Some s) projectID = Ok (Some sp)
    /\ Forall2 (λ a event, annotationEvent a = Ok event)
               (take 32 (trace.SpanData.Annotations s)) annotations
    /\ filter isAnnotation (timeEvents (Span.TimeEvents sp)) = annotations
    /\ filter isMessageEvent (timeEvents (Span.TimeEvents sp))
       = messageEvent <$> take 128 (trace.SpanData.MessageEvents s)
    /\ timeEvents (Span.TimeEvents sp)
       = annotations ++ (messageEvent <$> take 128 (trace.SpanData.MessageEvents s))
    /\ len (filter isAnnotation (timeEvents (Span.TimeEvents sp))) <= 32
    /\ len (filter isMessageEvent (timeEvents (Span.TimeEvents sp))) <= 128
    /\ annotationsLoop (len (trace.SpanData.Annotations s)) 0
         (trace.SpanData.Annotations s) (0, 0, None)
       = Ok (len annotations, len (drop 32 (trace.SpanData.Annotations s)),
             pushEvents None annotations)
    /\ messageEventsLoop (len (trace.SpanData.MessageEvents s)) 0
         (trace.SpanData.MessageEvents s) (0, 0, pushEvents None annotations)
       = Ok (len (take 128 (trace.SpanData.MessageEvents s)),
             len (drop 128 (trace.SpanData.MessageEvents s)),
             pushEvents (pushEvents None annotations)
               (messageEvent <$> take 128 (trace.SpanData.MessageEvents s)))
    /\ droppedAnnotations (Span.TimeEvents sp)
       = clip32 (len (drop 32 (trace.SpanData.Annotations s)))
    /\ droppedMessageEvents (Span.TimeEvents sp)
       = clip32 (len (drop 128 (trace.SpanData.MessageEvents s))).
Proof.
  destruct (protoFromSpanData_spec s projectID)
    as (sp & annotations & Hrun & _ & _ & _ & Hall & HloopA & Hevents & HdA & HdM).
  exists sp, annotations.
  destruct (split_time_events annotations (take 128 (trace.SpanData.MessageEvents s)))
    as [HfA HfM]; [eapply annotationEvents_kind; eassumption|].
  rewrite Hevents, HfA, HfM.
  assert (HlenA : length annotations = Nat.min 32 (length (trace.SpanData.Annotations s))).
  { rewrite <- (Forall2_length _ _ _ Hall). apply length_take. }
  repeat split; try done.
  - unfold len. lia.
  - unfold len. rewrite length_fmap, length_take. lia.
  - set (es := trace.SpanData.MessageEvents s).
    pose proof (messageEventsLoop_spec es (len es) 0 0 0 (pushEvents None annotations))
      as HrunM. cbn zeta in HrunM.
    change (Z.to_nat (maxMessageEventsPerSpan - 0)) with 128%nat in HrunM.
    rewrite HrunM. do 3 f_equal.
    + unfold len. rewrite length_fmap. lia.
    + rewrite len_drop. unfold len. rewrite length_fmap, length_take.
      case_decide; lia.
Qed.

(** C6.  [protoFromSpanData] returns nil exactly for the nil span; for every
    present span, whatever it holds, it returns a wire span: no panic, and
    no loop that fails to end. *)
Theorem protoFromSpanData_nil_iff (s : option trace.SpanData.t) (projectID : gostring) :
  exists sp : option Span.t,
    protoFromSpanData s projectID = Ok sp /\ (sp = None <-> s = None).
Proof.
  destruct s as [s|].
  - destruct (protoFromSpanData_spec s projectID) as (sp & _ & -> & _).
    exists (Some sp). split; [done|]. split; discriminate.
  - exists None. done.
Qed.

(** ** Example spans *)

(** Spec, section 8: 40 annotations give 32 annotation events and a dropped
    count of 8; 200 stack frames give 128 frames and a dropped count of 72. *)
Example forty_annotations :
  let te := encoded (spanWith ∅ (noteAt <$> seq 0 40) [] None) ≫= Span.TimeEvents in
  length (filter isAnnotation (timeEvents te)) = 32%nat /\ droppedAnnotations te = 8.
Proof. vm_compute. split; reflexivity. Qed.

Example two_hundred_frames :
  let st := encoded (spanWith ∅ [] [] (Some (frameAt <$> seq 0 200))) ≫= Span.StackTrace in
  length (stackFrames st) = 128%nat /\ droppedFrames st = 72.
Proof. vm_compute. split; reflexivity. Qed.

Example name_of_span :
  (encoded (spanWith ∅ [] [] None) ≫= λ sp, Some (Span.Name sp))
  = Some (lit "projects/p/traces/01010101010101010101010101010101/spans/0202020202020202").
Proof. vm_compute. reflexivity. Qed.

(** ** Accounting: kept and dropped *)

Lemma copied_plus_rejected (in_ : gmap gostring trace.AttrValue) :
  (size (filter copied in_) + size (filter rejected in_))%nat
  = size (filter hasSupportedType in_).
Proof.
  rewrite !size_filter_entries.
  induction (map_to_list in_) as [|entry l IH]; [done|].
  rewrite !filter_cons.
  destruct (decide (copied entry)) as [[Hs Hk]|Hc],
           (decide (rejected entry)) as [[Hs' Hk']|Hr],
           (decide (hasSupportedType entry)) as [Ht|Ht];
    cbn [length]; try lia; exfalso; unfold hasSupportedType in *; try done.
  destruct (rejected_or_copied entry Ht); done.
Qed.

(** C2 (as stated, refuted).  A span with one attribute, whose value is of an
    unsupported type, and with a stack trace that is present and holds no
    frame: no attribute is kept and none is counted as dropped, and one
    (zero-valued) frame is emitted for no input frame. *)
Lemma kept_plus_dropped_misses_input :
  exists sp : Span.t,
    protoFromSpanData (Some spanUncounted) (lit "p") = Ok (Some sp)
    /\ Z.of_nat (size (attributeMap (Span.Attributes sp)))
         + droppedAttributes (Span.Attributes sp) = 0
    /\ Z.of_nat (size (trace.SpanData.Attributes spanUncounted)) = 1
    /\ len (stackFrames (Span.StackTrace sp)) + droppedFrames (Span.StackTrace sp) = 1
    /\ trace.SpanData.StackTrace spanUncounted = Some [].
Proof. eexists. vm_compute. repeat split. Qed.

(** C2 (amended).  For every span record whose lists are short enough for
    the 32-bit counts (at most [MaxInt32] items beyond each cap) and whose
    stack trace, when present, holds at least one frame: the annotation
    events kept plus the dropped-annotation count is the number of
    annotations; likewise for message events; the attributes kept plus the
    dropped-attribute count is the number of attribute entries whose value is
    a boolean, 64-bit integer or string (entries of another type are neither
    kept nor counted); and the frames kept plus the dropped-frame count is
    the number of frames. *)
Theorem kept_plus_dropped_is_input (s : trace.SpanData.t) (projectID : gostring)
    (HA : len (trace.SpanData.Annotations s) <= 32 + MaxInt32)
    (HM : len (trace.SpanData.MessageEvents s) <= 128 + MaxInt32)
    (HK : Z.of_nat (size (filter rejected (trace.SpanData.Attributes s))) <= MaxInt32)
    (HF : forall frames, trace.SpanData.StackTrace s = Some frames ->
            frames <> [] /\ len frames <= 128 + MaxInt32) :
  exists sp : Span.t,
    protoFromSpanData (Some s) projectID = Ok (Some sp)
    /\ len (filter isAnnotation (timeEvents (Span.TimeEvents sp)))
         + droppedAnnotations (Span.TimeEvents sp)
       = len (trace.SpanData.Annotations s)
    /\ len (filter isMessageEvent (timeEvents (Span.TimeEvents sp)))
         + droppedMessageEvents (Span.TimeEvents sp)
       = len (trace.SpanData.MessageEvents s)
    /\ Z.of_nat (size (attributeMap (Span.Attributes sp)))
         + droppedAttributes (Span.Attributes sp)
       = Z.of_nat (size (filter hasSupportedType (trace.SpanData.Attributes s)))
    /\ len (stackFrames (Span.StackTrace sp)) + droppedFrames (Span.StackTrace sp)
       = len (default [] (trace.SpanData.StackTrace s)).
Proof.
  destruct (protoFromSpanData_spec s projectID)
    as (sp & annotations & Hrun & Hattrs & Hst & _ & Hall & _ & Hevents & HdA & HdM).
  exists sp. split; [exact Hrun|].
  destruct (split_time_events annotations (take 128 (trace.SpanData.MessageEvents s)))
    as [HfA HfM]; [eapply annotationEvents_kind; eassumption|].
  rewrite Hevents, HfA, HfM, HdA, HdM.
  assert (HlenA : length annotations = Nat.min 32 (length (trace.SpanData.Annotations s))).
  { rewrite <- (Forall2_length _ _ _ Hall). apply length_take. }
  split; [|split; [|split]].
  - rewrite len_drop, clip32_id by (unfold MinInt32, MaxInt32, len in *; lia).
    unfold len in *. lia.
  - rewrite len_drop, clip32_id by (unfold MinInt32, MaxInt32, len in *; lia).
    unfold len in *. rewrite length_fmap, length_take. lia.
  - rewrite <- copied_plus_rejected.
    destruct (decide (trace.SpanData.Attributes s = ∅)) as [Hempty|Hne].
    + rewrite Hempty in *. rewrite copyAttributes_empty in Hattrs by done.
      injection Hattrs as <-. reflexivity.
    + destruct (copyAttributes_spec None _ Hne) as (m' & Hrun' & _ & _ & Hsize).
      rewrite Hrun' in Hattrs. injection Hattrs as <-. cbn.
      rewrite Hsize by done. rewrite int32_id by (unfold MinInt32; lia). lia.
  - destruct (trace.SpanData.StackTrace s) as [frames|] eqn:Hframes.
    + destruct (HF frames eq_refl) as [Hne Hfit].
      destruct (stackTrace_spec frames Hne) as (out & Hout & Hrun').
      rewrite Hrun' in Hst. injection Hst as <-.
      pose proof (Forall2_length _ _ _ Hout) as Hlen. rewrite length_take in Hlen.
      cbn [stackFrames droppedFrames mbind option_bind StackTrace.StackFrames
           StackTrace_StackFrames.Frame StackTrace_StackFrames.DroppedFramesCount
           default].
      rewrite len_drop, clip32_id by (unfold MinInt32, MaxInt32, len in *; lia).
      unfold len, id in *. lia.
    + cbn in Hst. injection Hst as <-. reflexivity.
Qed.

Lemma kept_plus_dropped_is_input_witness :
  exists sp : Span.t,
    protoFromSpanData (Some spanCounted) (lit "p") = Ok (Some sp)
    /\ len (filter isAnnotation (timeEvents (Span.TimeEvents sp)))
         + droppedAnnotations (Span.TimeEvents sp) = 40
    /\ len (filter isMessageEvent (timeEvents (Span.TimeEvents sp)))
         + droppedMessageEvents (Span.TimeEvents sp) = 130
    /\ Z.of_nat (size (attributeMap (Span.Attributes sp)))
         + droppedAttributes (Span.Attributes sp) = 2
    /\ len (stackFrames (Span.StackTrace sp)) + droppedFrames (Span.StackTrace sp) = 200.
Proof.
  destruct (kept_plus_dropped_is_input spanCounted (lit "p"))
    as (sp & Hrun & HA & HM & HK & HF).
  - vm_compute. discriminate.
  - vm_compute. discriminate.
  - vm_compute. discriminate.
  - intros frames [= <-]. split; [discriminate|vm_compute; discriminate].
  - exists sp. split; [exact Hrun|].
    rewrite HA, HM, HK, HF. vm_compute. repeat split.
Defined.

(** C9.  A span whose attribute map is empty is encoded without an
    attributes container ([sp.Attributes] stays nil), and [copyAttributes]
    returns with [*out] as it was when the input map is empty. *)
Theorem empty_attributes_leave_container_absent
    (s : trace.SpanData.t) (projectID : gostring)
    (Hempty : trace.SpanData.Attributes s = ∅) :
  (forall out, copyAttributes out (trace.SpanData.Attributes s) = Ok out)
  /\ exists sp : Span.t,
       protoFromSpanData (Some s) projectID = Ok (Some sp)
       /\ Span.Attributes sp = None.
Proof.
  split; [intros out; now apply copyAttributes_empty|].
  destruct (protoFromSpanData_spec s projectID) as (sp & _ & Hrun & Hattrs & _).
  exists sp. split; [exact Hrun|].
  rewrite copyAttributes_empty in Hattrs by done. congruence.
Qed.

Lemma empty_attributes_leave_container_absent_witness :
  trace.SpanData.Attributes (spanWith ∅ (noteAt <$> seq 0 3) [] None) = ∅
  /\ exists sp : Span.t,
       protoFromSpanData (Some (spanWith ∅ (noteAt <$> seq 0 3) [] None)) (lit "p")
       = Ok (Some sp)
       /\ Span.Attributes sp = None.
Proof.
  split; [reflexivity|].
  apply (empty_attributes_leave_container_absent
           (spanWith ∅ (noteAt <$> seq 0 3) [] None) (lit "p")).
  reflexivity.
Defined.

(** * Further properties of the encoder *)

(** ** [trunc] *)

Lemma len_take_le {A : Type} (k : nat) (s : list A) :
  Z.of_nat k <= len s -> len (take k s) = Z.of_nat k.
Proof. intros H. unfold len in *. rewrite length_take. lia. Qed.

(** The value of [trunc] is determined by the test of its loop: it is the
    longest prefix, within the limit, whose last rune decodes. *)
Lemma trunc_longest (s : gostring) (n : Z) (k : nat) :
  0 <= n -> n < len s -> Z.of_nat k <= n ->
  invalidTail (take k s) = false ->
  (forall j : nat, Z.of_nat k < Z.of_nat j <= n -> invalidTail (take j s) = true) ->
  trunc s n = Ok {| TruncatableString.Value := take k s;
                    TruncatableString.TruncatedByteCount := clip32 (len s - Z.of_nat k) |}.
Proof.
  intros Hn Hlong Hk Hvalid Hlonger.
  destruct (trunc_spec s n Hn) as [[Hle _]|[_ (k' & Hk' & Hrun & Hvalid' & Hlonger')]]; [lia|].
  assert (k' = k) as ->; [|exact Hrun].
  destruct (Nat.lt_trichotomy k' k) as [Hlt|[Heq|Hgt]]; [|done|].
  - rewrite Hlonger' in Hvalid by lia. discriminate.
  - rewrite Hlonger in Hvalid' by lia. discriminate.
Qed.

(** X1.  For a limit that is not negative, [trunc] returns a prefix of its
    argument of at most [limit] bytes; the count is between 0 and the
    greatest 32-bit value, it is 0 exactly when the string is returned
    whole, and value and count add up to the length of the argument as long
    as that length fits in 32 bits. *)
Theorem trunc_value_is_bounded_prefix (s : gostring) (n : Z) (Hn : 0 <= n) :
  exists r : TruncatableString.t,
    trunc s n = Ok r
    /\ TruncatableString.Value r `prefix_of` s
    /\ len (TruncatableString.Value r) <= n
    /\ 0 <= TruncatableString.TruncatedByteCount r <= MaxInt32
    /\ (TruncatableString.TruncatedByteCount r = 0 <-> TruncatableString.Value r = s)
    /\ (len s <= MaxInt32 ->
        len (TruncatableString.Value r) + TruncatableString.TruncatedByteCount r = len s).
Proof.
  destruct (trunc_spec s n Hn) as [[Hle Hrun]|[Hgt (k & Hk & Hrun & _)]];
    rewrite Hrun; eexists; (split; [reflexivity|]); cbn.
  - unfold MaxInt32. repeat split; try done; lia.
  - assert (Hlen : len (take k s) = Z.of_nat k) by (apply len_take_le; lia).
    rewrite Hlen. rewrite clip32_nonneg by lia.
    split; [apply prefix_take|]. split; [lia|]. unfold MaxInt32.
    split; [lia|]. split; [|lia].
    split; [lia|]. intros Heq. rewrite Heq in Hlen. lia.
Qed.

Lemma trunc_value_is_bounded_prefix_witness :
  0 <= 2
  /\ exists r : TruncatableString.t,
       trunc (lit "abc") 2 = Ok r /\ len (TruncatableString.Value r) <= 2.
Proof.
  split; [lia|].
  destruct (trunc_value_is_bounded_prefix (lit "abc") 2) as (r & Hrun & _ & Hlen & _); [lia|].
  exists r. split; assumption.
Defined.

(** X2.  A negative limit makes [trunc] panic, whatever the string: the
    length of a string exceeds every negative number, and the slice
    expression [s[:limit]] is then out of range. *)
Theorem trunc_negative_limit_panics (s : gostring) (limit : Z) (Hneg : limit < 0) :
  trunc s limit = Panic.
Proof.
  unfold trunc. pose proof (len_nonneg s) as Hlen.
  destruct (Z.gtb_spec (len s) limit) as [_|Hle]; [|lia].
  rewrite sliceTo_negative by exact Hneg. reflexivity.
Qed.

Lemma trunc_negative_limit_panics_witness :
  -3 < 0 /\ trunc [] (-3) = Panic.
Proof. split; [lia|]. apply (trunc_negative_limit_panics [] (-3)). lia. Defined.

(** X3.  When the first [n] bytes of a longer string end with a complete
    character (or [n] is 0), [trunc] keeps exactly these [n] bytes and counts
    the others. *)
Theorem trunc_cuts_at_limit_on_boundary (s : gostring) (n : Z)
    (Hn : 0 <= n) (Hlong : n < len s)
    (Hboundary : take (Z.to_nat n) s = [] \/ endsWithChar (take (Z.to_nat n) s)) :
  trunc s n = Ok {| TruncatableString.Value := take (Z.to_nat n) s;
                    TruncatableString.TruncatedByteCount := clip32 (len s - n) |}.
Proof.
  rewrite (trunc_longest s n (Z.to_nat n)); try lia.
  - do 3 f_equal. lia.
  - now apply validTail_iff.
Qed.

Lemma trunc_cuts_at_limit_on_boundary_witness :
  trunc (lit "hello") 3 = Ok {| TruncatableString.Value := lit "hel";
                                TruncatableString.TruncatedByteCount := 2 |}.
Proof.
  apply (trunc_cuts_at_limit_on_boundary (lit "hello") 3); [lia|vm_compute; reflexivity|].
  right. exists (lit "he"), (lit "l"). split; reflexivity.
Defined.

(** The character of a concatenation in which the byte at index [n] lies. *)
Lemma concat_boundary (cs : list (list byte)) : forall n : Z,
  0 <= n < len (concat cs) ->
  exists pre c post,
    cs = pre ++ c :: post /\ len (concat pre) <= n < len (concat pre) + len c.
Proof.
  induction cs as [|c0 cs IH]; intros n Hn.
  - cbn in Hn. unfold len in Hn. cbn in Hn. lia.
  - cbn [concat] in Hn. rewrite len_app in Hn.
    destruct (Z.lt_ge_cases n (len c0)) as [Hlt|Hge].
    + exists [], c0, cs. split; [done|]. cbn. change (len (@nil byte)) with 0. lia.
    + destruct (IH (n - len c0)) as (pre & c & post & -> & Hpos); [lia|].
      exists (c0 :: pre), c, post. split; [done|].
      cbn [concat]. rewrite len_app. lia.
Qed.

Lemma wellFormedChar_len (c : list byte) : wellFormedChar c = true -> 1 <= len c <= 4.
Proof.
  intros Hc. destruct c as [|b0 [|b1 [|b2 [|b3 [|b4 c]]]]]; try discriminate Hc;
    unfold len; cbn; lia.
Qed.

Lemma validUTF8_validTail (cs : list (list byte)) :
  Forall (λ c, wellFormedChar c = true) cs -> invalidTail (concat cs) = false.
Proof.
  intros Hcs. destruct (decide (cs = [])) as [->|Hne]; [reflexivity|].
  destruct (exists_last Hne) as (pre & c & ->).
  apply Forall_app in Hcs as [_ Hc]. apply Forall_inv in Hc.
  rewrite concat_app. cbn [concat]. rewrite app_nil_r. now apply validTail_of_char.
Qed.

(** On valid UTF-8, the loop of [trunc] stops at the last character boundary
    at or before the limit. *)
Lemma trunc_valid_cut (pre post : list (list byte)) (c : list byte) (n : Z) :
  Forall (λ c, wellFormedChar c = true) pre -> wellFormedChar c = true ->
  len (concat pre) <= n < len (concat pre) + len c ->
  trunc (concat (pre ++ c :: post)) n
  = Ok {| TruncatableString.Value := concat pre;
          TruncatableString.TruncatedByteCount :=
            clip32 (len (concat (pre ++ c :: post)) - len (concat pre)) |}.
Proof.
  intros Hpre Hc Hn.
  set (s := concat (pre ++ c :: post)).
  assert (Hs : s = concat pre ++ c ++ concat post).
  { unfold s. now rewrite concat_app. }
  pose proof (len_nonneg (concat pre)) as Hk0. pose proof (len_nonneg (concat post)).
  assert (Hlen : len s = len (concat pre) + len c + len (concat post)).
  { rewrite Hs, !len_app. lia. }
  assert (Htake : take (length (concat pre)) s = concat pre).
  { rewrite Hs. apply take_app_length. }
  rewrite (trunc_longest s n (length (concat pre))); unfold len in *; try lia.
  - now rewrite Htake.
  - rewrite Htake. now apply validUTF8_validTail.
  - intros j Hj. apply incomplete_invalidTail.
    exists (concat pre), (take (j - length (concat pre)) c),
           (drop (j - length (concat pre)) c).
    split; [|split; [|split]].
    + rewrite Hs, take_app, take_app. rewrite (take_ge (concat pre)) by lia.
      replace (j - length (concat pre) - length c)%nat with 0%nat by lia.
      cbn [take firstn]. now rewrite app_nil_r.
    + intros Hnil. apply (f_equal length) in Hnil. rewrite length_take in Hnil.
      cbn in Hnil. lia.
    + intros Hnil. apply (f_equal length) in Hnil. rewrite length_drop in Hnil.
      cbn in Hnil. lia.
    + now rewrite take_drop.
Qed.

(** X4.  On valid UTF-8 that is longer than the limit, [trunc] cuts at a
    character boundary: the value is valid UTF-8 again, made of the leading
    characters of the argument, and it is at most three bytes short of the
    limit. *)
Theorem trunc_of_valid_utf8 (cs : list (list byte)) (n : Z)
    (Hcs : Forall (λ c, wellFormedChar c = true) cs)
    (Hn : 0 <= n) (Hlong : n < len (concat cs)) :
  exists (m : nat) (r : TruncatableString.t),
    trunc (concat cs) n = Ok r
    /\ TruncatableString.Value r = concat (take m cs)
    /\ validUTF8 (TruncatableString.Value r)
    /\ n - 3 <= len (TruncatableString.Value r) <= n
    /\ TruncatableString.TruncatedByteCount r
       = clip32 (len (concat (drop m cs))).
Proof.
  destruct (concat_boundary cs n) as (pre & c & post & -> & Hpos); [lia|].
  apply Forall_app in Hcs as [Hpre Hc]. apply Forall_cons in Hc as [Hc Hpost].
  exists (length pre). eexists. split; [now apply trunc_valid_cut|]. cbn.
  rewrite take_app_length, drop_app_length.
  pose proof (wellFormedChar_len c Hc).
  split; [done|]. split; [now exists pre|]. split; [lia|].
  f_equal. rewrite concat_app, len_app. lia.
Qed.

Lemma trunc_of_valid_utf8_witness :
  exists r : TruncatableString.t,
    trunc (concat [lit "a"; [xe2; x82; xac]; lit "b"]) 3 = Ok r
    /\ validUTF8 (TruncatableString.Value r)
    /\ 0 <= len (TruncatableString.Value r) <= 3.
Proof.
  destruct (trunc_of_valid_utf8 [lit "a"; [xe2; x82; xac]; lit "b"] 3)
    as (m & r & Hrun & _ & Hvalid & Hlen & _).
  - repeat constructor.
  - lia.
  - vm_compute. reflexivity.
  - exists r. split; [exact Hrun|]. split; [exact Hvalid|]. lia.
Defined.

(** X5.  Truncating to a limit and then to a smaller one gives the value
    that truncating to the smaller limit gives at once; and the value for
    the smaller limit is a prefix of the value for the greater. *)
Theorem trunc_in_two_steps (s : gostring) (n n' : Z) (Hn : 0 <= n) (Hle : n <= n') :
  exists r r' r'' : TruncatableString.t,
    trunc s n = Ok r
    /\ trunc s n' = Ok r'
    /\ trunc (TruncatableString.Value r') n = Ok r''
    /\ TruncatableString.Value r'' = TruncatableString.Value r
    /\ TruncatableString.Value r `prefix_of` TruncatableString.Value r'.
Proof.
  destruct (trunc_spec s n Hn) as [[Hfit Hrun]|[Hlong (k & Hk & Hrun & Hvalid & Hlonger)]].
  - (* everything fits *)
    destruct (trunc_spec s n' ltac:(lia)) as [[_ Hrun']|[Hlong' _]]; [|lia].
    do 3 eexists. split; [exact Hrun|]. split; [exact Hrun'|]. cbn.
    split; [exact Hrun|]. done.
  -     assert (Hlenk : forall j : nat, Z.of_nat j <= len s -> len (take j s) = Z.of_nat j).
    { intros j Hj. now apply len_take_le. }
    (* the value for the greater limit is [take k' s] with [k <= k'] *)
    assert (exists (k' : nat) (c' : Z),
              (k <= k')%nat /\ Z.of_nat k' <= len s
              /\ trunc s n' = Ok {| TruncatableString.Value := take k' s;
                                    TruncatableString.TruncatedByteCount := c' |}
              /\ (Z.of_nat k' <= n -> k' = k)) as (k' & c' & Hkk' & Hk's & Hrun' & Hsame).
    { destruct (trunc_spec s n' ltac:(lia))
        as [[Hfit' Hrun']|[Hlong' (k' & Hk' & Hrun' & Hvalid' & Hlonger')]].
      - exists (length s), 0. rewrite firstn_all. unfold len in *.
        split; [lia|]. split; [lia|]. split; [done|]. lia.
      - exists k', (clip32 (len s - Z.of_nat k')).
        assert (Hkk' : (k <= k')%nat).
        { destruct (Nat.le_gt_cases k k') as [|Hgt]; [done|].
          rewrite Hlonger' in Hvalid by lia. discriminate. }
        split; [done|]. split; [lia|]. split; [done|].
        intros Hk'n. destruct (decide (k' = k)) as [|Hne]; [done|].
        rewrite Hlonger in Hvalid' by lia. discriminate. }
    assert (Hprefix : take k s `prefix_of` take k' s).
    { replace (take k s) with (take k (take k' s)) by (rewrite take_take; f_equal; lia).
      apply prefix_take. }
    destruct (Z.le_gt_cases (Z.of_nat k') n) as [Hk'n|Hk'n].
    + (* the first value fits the smaller limit *)
      pose proof (Hsame Hk'n) as Heq. subst k'.
      destruct (trunc_spec (take k s) n Hn) as [[_ Hrun'']|[Hlong'' _]];
        [|rewrite Hlenk in Hlong'' by lia; lia].
      do 3 eexists. split; [exact Hrun|]. split; [exact Hrun'|]. cbn.
      split; [exact Hrun''|]. done.
    + assert (Htake : forall j : nat, Z.of_nat j <= n -> take j (take k' s) = take j s).
      { intros j Hj. rewrite take_take. f_equal. lia. }
      do 3 eexists. split; [exact Hrun|]. split; [exact Hrun'|]. cbn.
      assert (Hrun'' : trunc (take k' s) n
                       = Ok {| TruncatableString.Value := take k s;
                               TruncatableString.TruncatedByteCount :=
                                 clip32 (len (take k' s) - Z.of_nat k) |}).
      { rewrite (trunc_longest (take k' s) n k); try lia.
        - rewrite Htake by lia. reflexivity.
        - rewrite Hlenk by lia. lia.
        - now rewrite Htake by lia.
        - intros j Hj. rewrite Htake by lia. now apply Hlonger. }
      split; [exact Hrun''|]. done.
Qed.

Lemma trunc_in_two_steps_witness :
  exists r r'' : TruncatableString.t,
    trunc (lit "abcdef") 2 = Ok r
    /\ trunc (lit "abcd") 2 = Ok r''
    /\ TruncatableString.Value r'' = TruncatableString.Value r.
Proof.
  destruct (trunc_in_two_steps (lit "abcdef") 2 4) as (r & r' & r'' & Hr & Hr' & Hr'' & Heq & _);
    [lia|lia|].
  exists r, r''. split; [exact Hr|]. split; [|exact Heq].
  rewrite <- Hr''. f_equal. vm_compute in Hr'. now injection Hr' as <-.
Defined.

(** ** [clip32] *)

(** X6.  [clip32] is the identity exactly on the 32-bit range, applying it
    twice changes nothing more, and it keeps the order of its arguments. *)
Theorem clip32_monotone_idempotent (x : Z) :
  clip32 (clip32 x) = clip32 x
  /\ (forall y : Z, x <= y -> clip32 x <= clip32 y)
  /\ (clip32 x = x <-> MinInt32 <= x <= MaxInt32).
Proof.
  split; [apply clip32_id, clip32_range|]. split.
  - intros y Hxy. pose proof (clip32_range x). pose proof (clip32_range y).
    unfold clip32 in *.
    destruct (Z.ltb_spec x MinInt32), (Z.ltb_spec y MinInt32); try lia;
      destruct (Z.gtb_spec x MaxInt32), (Z.gtb_spec y MaxInt32); try lia;
      rewrite ?int32_id in * by lia; lia.
  - split; [intros <-; apply clip32_range|apply clip32_id].
Qed.

(** ** [copyAttributes] *)

Lemma trunc_len_le (s : gostring) (n : Z) (r : TruncatableString.t) :
  0 <= n -> trunc s n = Ok r -> len (TruncatableString.Value r) <= n.
Proof.
  intros Hn Hrun.
  destruct (trunc_spec s n Hn) as [[Hle Hrun']|[Hgt (k & Hk & Hrun' & _)]];
    rewrite Hrun' in Hrun; injection Hrun as <-; cbn; [done|].
  unfold len in *. rewrite length_take. lia.
Qed.

Lemma attributeMap_some (m : gmap gostring AttributeValue.t) (d : Z) :
  attributeMap (Some {| Span_Attributes.AttributeMap := Some m;
                        Span_Attributes.DroppedAttributesCount := d |}) = m.
Proof. reflexivity. Qed.

(** X7.  An entry of the input whose key has at most 128 bytes is found in
    the output map under its key, converted by its type: a boolean and an
    integer as they are, a string truncated to 256 bytes.  An entry of
    another type leaves what the container held under that key. *)
Theorem copyAttributes_stores_converted_values
    (out : option Span_Attributes.t) (in_ : gmap gostring trace.AttrValue)
    (key : gostring) (value : trace.AttrValue)
    (Hlook : in_ !! key = Some value) (Hkey : len key <= 128) :
  exists attributes : option Span_Attributes.t,
    copyAttributes out in_ = Ok attributes
    /\ match value with
       | trace.VBool b => attributeMap attributes !! key = Some (AttributeValue.BoolValue b)
       | trace.VInt64 i => attributeMap attributes !! key = Some (AttributeValue.IntValue i)
       | trace.VString v =>
           exists r : TruncatableString.t,
             trunc v 256 = Ok r
             /\ attributeMap attributes !! key = Some (AttributeValue.StringValue r)
             /\ len (TruncatableString.Value r) <= 256
       | trace.VOther => attributeMap attributes !! key = attributeMap out !! key
       end.
Proof.
  assert (Hne : in_ <> ∅).
  { intros ->. now rewrite lookup_empty in Hlook. }
  destruct (copyAttributes_spec out in_ Hne) as (m' & Hrun & Hin & Hout & _).
  eexists. split; [exact Hrun|]. rewrite attributeMap_some.
  destruct value as [b|i|v|].
  - destruct (Hin key (trace.VBool b) Hlook) as (av & Hav & Hm); [now split|].
    cbn in Hav. congruence.
  - destruct (Hin key (trace.VInt64 i) Hlook) as (av & Hav & Hm); [now split|].
    cbn in Hav. congruence.
  - destruct (Hin key (trace.VString v) Hlook) as (av & Hav & Hm); [now split|].
    cbn in Hav. destruct (trunc v 256) as [r| |] eqn:Hr; cbn in Hav; try discriminate.
    exists r. split; [done|]. split; [congruence|].
    now apply (trunc_len_le v 256).
  - apply Hout. intros value' Hlook' [Hs _]. cbn in Hs.
    assert (value' = trace.VOther) by congruence. subst value'. discriminate.
Qed.

Lemma copyAttributes_stores_converted_values_witness :
  exists attributes : option Span_Attributes.t,
    copyAttributes None attrsMixed = Ok attributes
    /\ attributeMap attributes !! lit "ok" = Some (AttributeValue.BoolValue true).
Proof.
  apply (copyAttributes_stores_converted_values None attrsMixed (lit "ok") (trace.VBool true)).
  - vm_compute. reflexivity.
  - vm_compute. discriminate.
Defined.

(** X8.  [copyAttributes] adds to the container it is given: it creates the
    map when there is none, the keys of the result are the keys the
    container held together with the keys of the copied entries, and a key
    that the input does not hold keeps its value. *)
Theorem copyAttributes_adds_to_container
    (out : option Span_Attributes.t) (in_ : gmap gostring trace.AttrValue)
    (Hne : in_ <> ∅) :
  exists (o : Span_Attributes.t) (m' : gmap gostring AttributeValue.t),
    copyAttributes out in_ = Ok (Some o)
    /\ Span_Attributes.AttributeMap o = Some m'
    /\ dom m' = dom (attributeMap out) ∪ dom (filter copied in_)
    /\ (forall key, in_ !! key = None -> m' !! key = attributeMap out !! key).
Proof.
  destruct (copyAttributes_spec out in_ Hne) as (m' & Hrun & Hin & Hout & _).
  eexists. exists m'. split; [exact Hrun|]. split; [reflexivity|]. split.
  - apply set_eq. intros key. rewrite elem_of_union, !elem_of_dom.
    destruct (in_ !! key) as [value|] eqn:Hlook.
    + destruct (decide (copied (key, value))) as [Hc|Hnc].
      * destruct (Hin key value Hlook Hc) as (av & _ & Hm). rewrite Hm.
        split; [intros _; right|eauto].
        exists value. apply map_lookup_filter_Some. now split.
      * rewrite Hout.
        -- split; [now left|intros [|[v Hv]]; [done|]].
           apply map_lookup_filter_Some in Hv as [Hv Hc]. cbn in Hc.
           assert (v = value) by congruence. now subst v.
        -- intros v Hv. assert (v = value) by congruence. now subst v.
    + rewrite Hout by (intros v Hv; congruence).
      split; [now left|intros [|[v Hv]]; [done|]].
      apply map_lookup_filter_Some in Hv as [Hv _]. congruence.
  - intros key Hnone. apply Hout. intros v Hv. congruence.
Qed.

Lemma copyAttributes_adds_to_container_witness :
  exists (o : Span_Attributes.t) (m' : gmap gostring AttributeValue.t),
    copyAttributes None attrsMixed = Ok (Some o)
    /\ Span_Attributes.AttributeMap o = Some m'
    /\ dom m' = dom (filter copied attrsMixed).
Proof.
  destruct (copyAttributes_adds_to_container None attrsMixed)
    as (o & m' & Hrun & Hmap & Hdom & _).
  - apply map_size_non_empty_iff. vm_compute. lia.
  - exists o, m'. split; [exact Hrun|]. split; [exact Hmap|].
    rewrite Hdom. cbn [attributeMap]. rewrite dom_empty_L. apply (left_id_L ∅ (∪)).
Defined.

(** X9.  Go leaves the order in which [range] visits a map open.  Whatever
    the order in which the loop of [copyAttributes] visits the entries of the
    input, the map and the count it ends with are the same. *)
Theorem copyAttributes_any_order
    (out : option Span_Attributes.t) (in_ : gmap gostring trace.AttrValue)
    (entries : list (gostring * trace.AttrValue))
    (Hne : in_ <> ∅) (Hperm : entries ≡ₚ map_to_list in_) :
  copyAttributes out in_
  = ('(m, dropped) ← copyAttributesLoop entries (Some (attributeMap out), 0);
     Ok (Some {| Span_Attributes.AttributeMap := m;
                 Span_Attributes.DroppedAttributesCount := dropped |})).
Proof.
  unfold copyAttributes.
  assert (Hsize : size in_ <> 0%nat) by now apply map_size_non_empty_iff.
  destruct (Z.eqb_spec (Z.of_nat (size in_)) 0) as [|_]; [lia|].
  rewrite (copyAttributesLoop_order entries (map_to_list in_)); [|done|].
  - now destruct out as [[[m|] d]|].
  - rewrite Hperm. apply NoDup_fst_map_to_list.
Qed.

Lemma copyAttributes_any_order_witness :
  copyAttributes None attrsMixed
  = ('(m, dropped) ← copyAttributesLoop (reverse (map_to_list attrsMixed)) (Some ∅, 0);
     Ok (Some {| Span_Attributes.AttributeMap := m;
                 Span_Attributes.DroppedAttributesCount := dropped |})).
Proof.
  apply (copyAttributes_any_order None attrsMixed (reverse (map_to_list attrsMixed))).
  - apply map_size_non_empty_iff. vm_compute. lia.
  - apply reverse_Permutation.
Defined.

(** X10.  A container that [copyAttributes] fills from nothing holds only
    entries of the input whose value is a boolean, an integer or a string,
    under keys of at most 128 bytes, with string values of at most 256 bytes;
    it holds one entry for each such entry of the input, and so never more
    entries than the input. *)
Theorem copyAttributes_output_within_limits (in_ : gmap gostring trace.AttrValue) :
  exists attributes : option Span_Attributes.t,
    copyAttributes None in_ = Ok attributes
    /\ (forall key av, attributeMap attributes !! key = Some av ->
          len key <= 128
          /\ (exists value, in_ !! key = Some value /\ supported value = true
                            /\ attributeValue value = Ok (Some av))
          /\ (forall r, av = AttributeValue.StringValue r ->
                len (TruncatableString.Value r) <= 256))
    /\ size (attributeMap attributes) = size (filter copied in_)
    /\ (size (attributeMap attributes) <= size in_)%nat.
Proof.
  destruct (decide (in_ = ∅)) as [->|Hne].
  - exists None. split; [reflexivity|]. cbn [attributeMap]. split.
    + intros key av Hlook. now rewrite lookup_empty in Hlook.
    + rewrite map_filter_empty, !map_size_empty. done.
  - destruct (copyAttributes_spec None in_ Hne) as (m' & Hrun & Hin & Hout & Hsize).
    eexists. split; [exact Hrun|]. rewrite attributeMap_some.
    split; [|split].
    + intros key av Hlook.
      assert (exists value, in_ !! key = Some value /\ copied (key, value))
        as (value & Hvalue & [Hs Hk]).
      { destruct (in_ !! key) as [value|] eqn:Hvalue.
        - destruct (decide (copied (key, value))) as [Hc|Hnc]; [eauto|].
          rewrite Hout in Hlook; [cbn [attributeMap] in Hlook; now rewrite lookup_empty in Hlook|].
          intros v Hv. assert (v = value) by congruence. now subst v.
        - rewrite Hout in Hlook; [cbn [attributeMap] in Hlook; now rewrite lookup_empty in Hlook|].
          intros v Hv. congruence. }
      cbn in Hs, Hk.
      destruct (Hin key value Hvalue) as (av' & Hav & Hm); [now split|].
      assert (av' = av) by congruence. subst av'.
      split; [done|]. split; [eauto|].
      intros r ->. destruct value as [b|i|v|]; cbn in Hav; try discriminate.
      destruct (trunc v 256) as [r'| |] eqn:Hr; cbn in Hav; try discriminate.
      injection Hav as ->. now apply (trunc_len_le v 256).
    + now apply Hsize.
    + rewrite Hsize by done. apply map_subseteq_size, map_filter_subseteq.
Qed.

(** ** [protoFromSpanData]: the fields of the result *)

(** The time-events container after the two loops and the record of the
    dropped counts. *)
Lemma timeEvents_fields (as_ : list trace.Annotation.t) (es : list trace.MessageEvent.t) :
  exists annotations : list Span_TimeEvent.t,
    Forall2 (λ a event, annotationEvent a = Ok event) (take 32 as_) annotations
    /\ ('(_, droppedAnnotationsCount, te) ← annotationsLoop (len as_) 0 as_ (0, 0, None);
        '(_, droppedMessageEventsCount, te) ← messageEventsLoop (len es) 0 es (0, 0, te);
        Ok (recordDropped droppedAnnotationsCount droppedMessageEventsCount te))
       = Ok (recordDropped (len (drop 32 as_)) (len (drop 128 es))
               (pushEvents (pushEvents None annotations) (messageEvent <$> take 128 es))).
Proof.
  destruct (annotationsLoop_spec as_ (len as_) 0 0 0 None) as (annotations & Hall & HrunA).
  change (Z.to_nat (maxAnnotationEventsPerSpan - 0)) with 32%nat in *.
  assert (HlenA : length annotations = Nat.min 32 (length as_)).
  { rewrite <- (Forall2_length _ _ _ Hall). apply length_take. }
  assert (HdA : (if decide (32 < length as_)%nat
                 then len as_ - (0 + len annotations) else 0) = len (drop 32 as_)).
  { rewrite len_drop. unfold len. case_decide; lia. }
  rewrite HdA in HrunA.
  pose proof (messageEventsLoop_spec es (len es) 0 0 0 (pushEvents None annotations))
    as HrunM. cbn zeta in HrunM.
  change (Z.to_nat (maxMessageEventsPerSpan - 0)) with 128%nat in *.
  set (messages := messageEvent <$> take 128 es) in *.
  assert (HdM : (if decide (128 < length es)%nat
                 then len es - (0 + len messages) else 0) = len (drop 128 es)).
  { rewrite len_drop. unfold messages, len. rewrite length_fmap, length_take.
    case_decide; lia. }
  rewrite HdM in HrunM.
  exists annotations. split; [exact Hall|].
  rewrite HrunA. cbn [mbind result_bind]. rewrite HrunM. reflexivity.
Qed.

(** Every present span is encoded, and each field of the result is what the
    corresponding statement of the source computes. *)
Lemma protoFromSpanData_fields (s : trace.SpanData.t) (projectID : gostring) :
  exists (displayName : TruncatableString.t) (attributes : option Span_Attributes.t)
         (annotations : list Span_TimeEvent.t) (st : option StackTrace.t)
         (lks : option Span_Links.t),
    trunc (trace.SpanData.Name s) 128 = Ok displayName
    /\ copyAttributes None (trace.SpanData.Attributes s) = Ok attributes
    /\ Forall2 (λ a event, annotationEvent a = Ok event)
               (take 32 (trace.SpanData.Annotations s)) annotations
    /\ stackTrace (trace.SpanData.StackTrace s) = Ok st
    /\ links projectID (trace.SpanData.Links s) = Ok lks
    /\ protoFromSpanData (Some s) projectID
       = Ok (Some {|
           Span.Name :=
             lit "projects/" ++ projectID ++ lit "/traces/"
               ++ trace.hexString (trace.SpanContext.TraceID (trace.SpanData.SpanContext s))
               ++ lit "/spans/"
               ++ trace.hexString (trace.SpanContext.SpanID (trace.SpanData.SpanContext s));
           Span.SpanId :=
             trace.hexString (trace.SpanContext.SpanID (trace.SpanData.SpanContext s));
           Span.ParentSpanId :=
             if bool_decide (trace.SpanData.ParentSpanID s ≠ repeat x00 8)
             then trace.hexString (trace.SpanData.ParentSpanID s) else [];
           Span.DisplayName := Some displayName;
           Span.StartTime := Some (timestampProto (trace.SpanData.StartTime s));
           Span.EndTime := Some (timestampProto (trace.SpanData.EndTime s));
           Span.Attributes := attributes;
           Span.StackTrace := st;
           Span.TimeEvents :=
             recordDropped (len (drop 32 (trace.SpanData.Annotations s)))
               (len (drop 128 (trace.SpanData.MessageEvents s)))
               (pushEvents (pushEvents None annotations)
                  (messageEvent <$> take 128 (trace.SpanData.MessageEvents s)));
           Span.Links := lks;
           Span.Status :=
             if negb (trace.Status.Code (trace.SpanData.Status s) =? 0)
                || negb (len (trace.Status.Message (trace.SpanData.Status s)) =? 0)
             then Some {| statuspb.Status.Code := trace.Status.Code (trace.SpanData.Status s);
                          statuspb.Status.Message :=
                            trace.Status.Message (trace.SpanData.Status s) |}
             else None;
           Span.SameProcessAsParentSpan := Some (negb (trace.SpanData.HasRemoteParent s))
         |}).
Proof.
  unfold protoFromSpanData.
  destruct (trunc_total (trace.SpanData.Name s) 128) as [displayName HdisplayName]; [lia|].
  destruct (copyAttributes_total None (trace.SpanData.Attributes s)) as [attributes Hattrs].
  destruct (stackTrace_total (trace.SpanData.StackTrace s)) as (st & Hst & _).
  destruct (links_total projectID (trace.SpanData.Links s)) as [lks Hlks].
  destruct (timeEvents_fields (trace.SpanData.Annotations s) (trace.SpanData.MessageEvents s))
    as (annotations & Hall & Hte).
  exists displayName, attributes, annotations, st, lks.
  repeat (split; [assumption|]).
  rewrite HdisplayName. cbn [mbind result_bind]. rewrite Hattrs. cbn [mbind result_bind].
  destruct (annotationsLoop _ _ _ _) as [[[a dA] teA]| |]; cbn [mbind result_bind] in *;
    try discriminate Hte.
  destruct (messageEventsLoop _ _ _ _) as [[[m dM] teM]| |]; cbn [mbind result_bind] in *;
    try discriminate Hte.
  injection Hte as ->.
  rewrite Hst. cbn [mbind result_bind]. rewrite Hlks. reflexivity.
Qed.

(** X11.  The status is left out exactly when its code is 0 and its message
    is empty; when it is sent, it carries the code and the whole message,
    which is not truncated. *)
Theorem status_is_left_out_when_unset (s : trace.SpanData.t) (projectID : gostring) :
  exists sp : Span.t,
    protoFromSpanData (Some s) projectID = Ok (Some sp)
    /\ (Span.Status sp = None
        <-> trace.Status.Code (trace.SpanData.Status s) = 0
            /\ trace.Status.Message (trace.SpanData.Status s) = [])
    /\ (forall status : statuspb.Status.t, Span.Status sp = Some status ->
          statuspb.Status.Code status = trace.Status.Code (trace.SpanData.Status s)
          /\ statuspb.Status.Message status
             = trace.Status.Message (trace.SpanData.Status s)).
Proof.
  destruct (protoFromSpanData_fields s projectID)
    as (displayName & attributes & annotations & st & lks
        & HdisplayName & Hattributes & Hannotations & Hst & Hlks & Hrun). eexists. split; [exact Hrun|]. cbn [Span.Status].
  destruct (trace.SpanData.Status s) as [code message].
  cbn [trace.Status.Code trace.Status.Message].
  destruct (Z.eqb_spec code 0) as [Hcode|Hcode]; cbn [negb orb].
  - destruct message as [|b message]; cbn.
    + split; [done|]. intros status [=].
    + split; [split; [discriminate|intros [_ [=]]]|]. now intros status [= <-].
  - split; [split; [discriminate|intros [? _]; done]|]. now intros status [= <-].
Qed.

Lemma length_hexString (id : list byte) :
  length (trace.hexString id) = (2 * length id)%nat.
Proof.
  unfold trace.hexString. induction id as [|c id IH]; [done|].
  cbn [flat_map app length]. rewrite IH. lia.
Qed.

(** X12.  For a span id of eight bytes, the parent span id of the result is
    empty exactly when the parent span id is the zero value (a root span);
    otherwise it is the id in hexadecimal, sixteen characters. *)
Theorem parent_span_id_is_omitted_for_root (s : trace.SpanData.t) (projectID : gostring)
    (Hid : length (trace.SpanData.ParentSpanID s) = 8%nat) :
  exists sp : Span.t,
    protoFromSpanData (Some s) projectID = Ok (Some sp)
    /\ (Span.ParentSpanId sp = [] <-> trace.SpanData.ParentSpanID s = repeat x00 8)
    /\ (trace.SpanData.ParentSpanID s <> repeat x00 8 ->
          Span.ParentSpanId sp = trace.hexString (trace.SpanData.ParentSpanID s)
          /\ length (Span.ParentSpanId sp) = 16%nat).
Proof.
  destruct (protoFromSpanData_fields s projectID)
    as (displayName & attributes & annotations & st & lks
        & HdisplayName & Hattributes & Hannotations & Hst & Hlks & Hrun). eexists. split; [exact Hrun|]. cbn [Span.ParentSpanId].
  pose proof (length_hexString (trace.SpanData.ParentSpanID s)) as Hlen.
  case_bool_decide as Hp.
  - split; [|intros _; split; [done|lia]].
    split; [|done]. intros Hnil. rewrite Hnil in Hlen. cbn in Hlen. lia.
  - split; [|done]. split; [intros _|done].
    destruct (decide (trace.SpanData.ParentSpanID s = repeat x00 8)); done.
Qed.

Lemma parent_span_id_is_omitted_for_root_witness :
  exists sp : Span.t,
    protoFromSpanData (Some (spanWith ∅ [] [] None)) (lit "p") = Ok (Some sp)
    /\ Span.ParentSpanId sp = [].
Proof.
  destruct (parent_span_id_is_omitted_for_root (spanWith ∅ [] [] None) (lit "p"))
    as (sp & Hrun & Hroot & _); [reflexivity|].
  exists sp. split; [exact Hrun|]. apply Hroot. reflexivity.
Defined.

Lemma hexdigit_inj (a b : Z) :
  0 <= a < 16 -> 0 <= b < 16 -> trace.hexdigit a = trace.hexdigit b -> a = b.
Proof.
  intros Ha Hb Heq. unfold trace.hexdigit in Heq.
  assert (Hnodup : NoDup (lit "0123456789abcdef")).
  { apply (bool_decide_unpack _). vm_compute. exact I. }
  apply NoDup_ListNoDup in Hnodup.
  assert (Z.to_nat a = Z.to_nat b); [|lia].
  apply (proj1 (List.NoDup_nth _ x00) Hnodup); [| |exact Heq];
    change (length (lit "0123456789abcdef")) with 16%nat; lia.
Qed.

Lemma byteZ_inj (c c' : byte) : byteZ c = byteZ c' -> c = c'.
Proof.
  unfold byteZ. intros H. apply N2Z.inj in H.
  apply (f_equal Byte.of_N) in H. rewrite !Byte.of_to_N in H. congruence.
Qed.

(** The hexadecimal rendering of an id determines the id. *)
Lemma hexString_inj (id id' : list byte) :
  trace.hexString id = trace.hexString id' -> id = id'.
Proof.
  revert id'. induction id as [|c id IH]; intros [|c' id'] Heq; try done.
  unfold trace.hexString in Heq. cbn [flat_map app] in Heq.
  injection Heq as Hhi Hlo Hrest.
  assert (Hdigits : forall x : byte,
            0 <= byteZ x / 16 < 16 /\ 0 <= byteZ x mod 16 < 16).
  { intros x. pose proof (byteZ_range x). split.
    - split; [apply Z.div_pos; lia|apply Z.div_lt_upper_bound; lia].
    - apply Z.mod_pos_bound. lia. }
  destruct (Hdigits c), (Hdigits c').
  apply hexdigit_inj in Hhi; [|done|done].
  apply hexdigit_inj in Hlo; [|done|done].
  f_equal; [|now apply IH].
  apply byteZ_inj.
  rewrite (Z.div_mod (byteZ c) 16), (Z.div_mod (byteZ c') 16) by lia. lia.
Qed.

(** X13.  The resource name of the result is
    [projects/<project>/traces/<trace id>/spans/<span id>] with the two ids
    in hexadecimal, and the span id of the result is that of the span.  For
    ids of the sizes Go gives them (16 and 8 bytes), two spans of a project
    get the same resource name only if they have the same trace id and the
    same span id. *)
Theorem resource_name_identifies_span (s s' : trace.SpanData.t) (projectID : gostring)
    (Htrace : length (trace.SpanContext.TraceID (trace.SpanData.SpanContext s)) = 16%nat)
    (Htrace' : length (trace.SpanContext.TraceID (trace.SpanData.SpanContext s')) = 16%nat) :
  exists sp sp' : Span.t,
    protoFromSpanData (Some s) projectID = Ok (Some sp)
    /\ protoFromSpanData (Some s') projectID = Ok (Some sp')
    /\ Span.Name sp
       = lit "projects/" ++ projectID ++ lit "/traces/"
           ++ trace.hexString (trace.SpanContext.TraceID (trace.SpanData.SpanContext s))
           ++ lit "/spans/" ++ Span.SpanId sp
    /\ Span.SpanId sp
       = trace.hexString (trace.SpanContext.SpanID (trace.SpanData.SpanContext s))
    /\ (Span.Name sp = Span.Name sp' ->
          trace.SpanContext.TraceID (trace.SpanData.SpanContext s)
          = trace.SpanContext.TraceID (trace.SpanData.SpanContext s')
          /\ trace.SpanContext.SpanID (trace.SpanData.SpanContext s)
             = trace.SpanContext.SpanID (trace.SpanData.SpanContext s')).
Proof.
  destruct (protoFromSpanData_fields s projectID) as (? & ? & ? & ? & ? & _ & _ & _ & _ & _ & Hrun).
  destruct (protoFromSpanData_fields s' projectID)
    as (? & ? & ? & ? & ? & _ & _ & _ & _ & _ & Hrun').
  do 2 eexists. split; [exact Hrun|]. split; [exact Hrun'|].
  cbn [Span.Name Span.SpanId]. split; [done|]. split; [done|].
  intros Heq. do 3 apply app_inv_head in Heq.
  apply app_inj_1 in Heq as [Ht Hs]; [|rewrite !length_hexString; lia].
  apply app_inv_head in Hs. split; now apply hexString_inj.
Qed.

Lemma resource_name_identifies_span_witness :
  exists sp : Span.t,
    protoFromSpanData (Some (spanWith ∅ [] [] None)) (lit "p") = Ok (Some sp)
    /\ Span.SpanId sp = lit "0202020202020202".
Proof.
  destruct (resource_name_identifies_span (spanWith ∅ [] [] None) (spanWith ∅ [] [] None)
              (lit "p")) as (sp & _ & Hrun & _ & _ & Hid & _); [reflexivity|reflexivity|].
  exists sp. split; [exact Hrun|]. rewrite Hid. vm_compute. reflexivity.
Defined.

(** X14.  The time-events container of the result is absent exactly when
    the span has no annotation and no message event. *)
Theorem time_events_absent_iff_none_recorded (s : trace.SpanData.t) (projectID : gostring) :
  exists sp : Span.t,
    protoFromSpanData (Some s) projectID = Ok (Some sp)
    /\ (Span.TimeEvents sp = None
        <-> trace.SpanData.Annotations s = [] /\ trace.SpanData.MessageEvents s = []).
Proof.
  destruct (protoFromSpanData_fields s projectID)
    as (displayName & attributes & annotations & st & lks
        & HdisplayName & Hattributes & Hannotations & Hst & Hlks & Hrun). eexists. split; [exact Hrun|]. cbn [Span.TimeEvents].
  set (as_ := trace.SpanData.Annotations s) in *.
  set (es := trace.SpanData.MessageEvents s) in *.
  pose proof (Forall2_length _ _ _ Hannotations) as Hlen. rewrite length_take in Hlen.
  destruct (pushEvents_spec (messageEvent <$> take 128 es) (pushEvents None annotations))
    as (_ & _ & _ & Hnone).
  destruct (pushEvents_spec annotations None) as (_ & _ & _ & Hnone').
  unfold recordDropped. rewrite !len_drop.
  split.
  - intros Hte.
    destruct (Z.eqb_spec (Z.max 0 (len as_ - Z.of_nat 32)) 0) as [HdA|]; [|done].
    destruct (Z.eqb_spec (Z.max 0 (len es - Z.of_nat 128)) 0) as [HdM|]; [|done].
    cbn [negb orb] in Hte. apply Hnone in Hte as [Hte Hmsgs].
    apply Hnone' in Hte as [_ ->]. cbn in Hlen.
    apply fmap_nil_inv in Hmsgs.
    split.
    + destruct as_; [done|]. cbn in Hlen. lia.
    + destruct es; [done|]. discriminate Hmsgs.
  - intros [Has Hes]. rewrite Has, Hes in *. cbn in Hlen.
    destruct annotations; [|discriminate Hlen]. reflexivity.
Qed.

(** ** Stack frames and links *)

Lemma stackFrame_inv (frame : runtime.Frame.t) (f : StackTrace_StackFrame.t) :
  stackFrame frame = Ok f ->
  exists functionName fileName : TruncatableString.t,
    trunc (runtime.Frame.Function frame) 1024 = Ok functionName
    /\ trunc (runtime.Frame.File frame) 256 = Ok fileName
    /\ f = {| StackTrace_StackFrame.FunctionName := Some functionName;
              StackTrace_StackFrame.FileName := Some fileName;
              StackTrace_StackFrame.LineNumber := runtime.Frame.Line frame |}.
Proof.
  unfold stackFrame. intros Hf.
  destruct (trunc (runtime.Frame.Function frame) 1024) as [fn| |]; try discriminate Hf.
  destruct (trunc (runtime.Frame.File frame) 256) as [file| |]; try discriminate Hf.
  cbn in Hf. injection Hf as <-. eauto.
Qed.

(** X15.  The stack trace of the result is absent exactly when the span has
    none (a nil slice).  For a stack trace of at least one frame, the frames
    of the result are the first 128 frames in their order, each with its
    function name truncated to 1024 bytes, its file name truncated to 256
    bytes and its line number as it is, and the dropped count is the number
    of the frames after the 128th, clipped to 32 bits. *)
Theorem stack_frames_are_first_128 (s : trace.SpanData.t) (projectID : gostring) :
  exists sp : Span.t,
    protoFromSpanData (Some s) projectID = Ok (Some sp)
    /\ (Span.StackTrace sp = None <-> trace.SpanData.StackTrace s = None)
    /\ (forall pcs, trace.SpanData.StackTrace s = Some pcs -> pcs <> [] ->
          Forall2
            (λ frame f,
               exists functionName fileName : TruncatableString.t,
                 trunc (runtime.Frame.Function frame) 1024 = Ok functionName
                 /\ trunc (runtime.Frame.File frame) 256 = Ok fileName
                 /\ f = {| StackTrace_StackFrame.FunctionName := Some functionName;
                           StackTrace_StackFrame.FileName := Some fileName;
                           StackTrace_StackFrame.LineNumber := runtime.Frame.Line frame |})
            (take 128 pcs) (stackFrames (Span.StackTrace sp))
          /\ droppedFrames (Span.StackTrace sp) = clip32 (Z.max 0 (len pcs - 128))).
Proof.
  destruct (protoFromSpanData_fields s projectID)
    as (displayName & attributes & annotations & st & lks
        & HdisplayName & Hattributes & Hannotations & Hst & Hlks & Hrun). eexists. split; [exact Hrun|]. cbn [Span.StackTrace].
  split.
  - destruct (stackTrace_total (trace.SpanData.StackTrace s)) as (st' & Hst' & Hnone).
    assert (st' = st) by congruence. now subst st'.
  - intros pcs Hpcs Hne. rewrite Hpcs in Hst.
    destruct (stackTrace_spec pcs Hne) as (out & Hout & Hrun').
    rewrite Hrun' in Hst. injection Hst as <-. cbn. split.
    + eapply Forall2_impl; [exact Hout|]. intros frame f Hf. now apply stackFrame_inv.
    + now rewrite len_drop.
Qed.

(** X16.  A stack trace that is present and holds no frame is not treated
    as absent: the loop asks the iterator for a frame before it tests [more],
    so the result has a stack trace with one frame, the zero frame (empty
    names, line 0), and a dropped count of 0. *)
Theorem empty_stack_trace_gives_one_zero_frame (s : trace.SpanData.t) (projectID : gostring)
    (Hempty : trace.SpanData.StackTrace s = Some []) :
  exists sp : Span.t,
    protoFromSpanData (Some s) projectID = Ok (Some sp)
    /\ stackFrames (Span.StackTrace sp)
       = [ {| StackTrace_StackFrame.FunctionName :=
                Some {| TruncatableString.Value := [];
                        TruncatableString.TruncatedByteCount := 0 |};
              StackTrace_StackFrame.FileName :=
                Some {| TruncatableString.Value := [];
                        TruncatableString.TruncatedByteCount := 0 |};
              StackTrace_StackFrame.LineNumber := 0 |} ]
    /\ droppedFrames (Span.StackTrace sp) = 0.
Proof.
  destruct (protoFromSpanData_fields s projectID)
    as (displayName & attributes & annotations & st & lks
        & HdisplayName & Hattributes & Hannotations & Hst & Hlks & Hrun). eexists. split; [exact Hrun|]. cbn [Span.StackTrace].
  rewrite Hempty in Hst. vm_compute in Hst. injection Hst as <-. split; reflexivity.
Qed.

Lemma empty_stack_trace_gives_one_zero_frame_witness :
  exists sp : Span.t,
    protoFromSpanData (Some spanUncounted) (lit "p") = Ok (Some sp)
    /\ length (stackFrames (Span.StackTrace sp)) = 1%nat.
Proof.
  destruct (empty_stack_trace_gives_one_zero_frame spanUncounted (lit "p"))
    as (sp & Hrun & Hframes & _); [reflexivity|].
  exists sp. split; [exact Hrun|]. now rewrite Hframes.
Defined.

Lemma linksLoop_spec (projectID : gostring) (ls : list trace.Link.t) :
  forall acc, exists lks,
    linksLoop projectID ls acc = Ok (acc ++ lks)
    /\ Forall2 (λ l lk, link projectID l = Ok lk) ls lks.
Proof.
  induction ls as [|l rest IH]; intros acc; cbn [linksLoop].
  - exists []. rewrite app_nil_r. split; [done|constructor].
  - destruct (link_total projectID l) as [lk Hlk]. rewrite Hlk. cbn [mbind result_bind].
    destruct (IH (acc ++ [lk])) as (lks & -> & Hall).
    exists (lk :: lks). rewrite <- app_assoc. split; [done|]. now constructor.
Qed.

Lemma link_inv (projectID : gostring) (l : trace.Link.t) (lk : Span_Link.t) :
  link projectID l = Ok lk ->
  Span_Link.TraceId lk
  = lit "projects/" ++ projectID ++ lit "/traces/" ++ trace.hexString (trace.Link.TraceID l)
  /\ Span_Link.SpanId lk = trace.hexString (trace.Link.SpanID l)
  /\ Span_Link.Type_ lk = trace.Link.Type_ l
  /\ copyAttributes None (trace.Link.Attributes l) = Ok (Span_Link.Attributes lk).
Proof.
  unfold link. intros Hlk.
  destruct (copyAttributes None (trace.Link.Attributes l)) as [attrs| |];
    try discriminate Hlk.
  cbn in Hlk. injection Hlk as <-. done.
Qed.

(** X17.  Links are not capped: the links container of the result is absent
    exactly when the span has no link, and otherwise it holds one link for
    each link of the span, in the same order, with the trace id rendered as
    [projects/<project>/traces/<trace id>], the span id in hexadecimal, the
    type as it is, and the attributes copied into a container of its own. *)
Theorem links_are_all_copied (s : trace.SpanData.t) (projectID : gostring) :
  exists (sp : Span.t) (lks : list Span_Link.t),
    protoFromSpanData (Some s) projectID = Ok (Some sp)
    /\ (Span.Links sp = None <-> trace.SpanData.Links s = [])
    /\ (trace.SpanData.Links s <> [] -> Span.Links sp = Some {| Span_Links.Link := lks |})
    /\ length lks = length (trace.SpanData.Links s)
    /\ Forall2
         (λ l lk,
            Span_Link.TraceId lk
            = lit "projects/" ++ projectID ++ lit "/traces/"
                ++ trace.hexString (trace.Link.TraceID l)
            /\ Span_Link.SpanId lk = trace.hexString (trace.Link.SpanID l)
            /\ Span_Link.Type_ lk = trace.Link.Type_ l
            /\ copyAttributes None (trace.Link.Attributes l) = Ok (Span_Link.Attributes lk))
         (trace.SpanData.Links s) lks.
Proof.
  destruct (protoFromSpanData_fields s projectID)
    as (displayName & attributes & annotations & st & lks
        & HdisplayName & Hattributes & Hannotations & Hst & Hlks & Hrun).
  destruct (linksLoop_spec projectID (trace.SpanData.Links s) []) as (out & Hloop & Hall).
  eexists. exists out. split; [exact Hrun|]. cbn [Span.Links].
  unfold links in Hlks. rewrite Hloop in Hlks. cbn [mbind result_bind app] in Hlks.
  destruct (trace.SpanData.Links s) as [|l ls] eqn:Hls.
  - cbn in Hlks. injection Hlks as <-. inversion Hall. subst.
    repeat split; try done.
  - assert (Hpos : (len (l :: ls) >? 0) = true).
    { unfold len. cbn [length]. destruct (Z.gtb_spec (Z.of_nat (S (length ls))) 0); [done|lia]. }
    rewrite Hpos in Hlks. injection Hlks as <-.
    split; [split; discriminate|]. split; [done|].
    split; [symmetry; eapply Forall2_length; exact Hall|].
    eapply Forall2_impl; [exact Hall|]. intros l' lk Hlk. now apply link_inv.
Qed.

(** ** Time events and the strings of the result *)

Lemma timeEvents_recorded (annotations : list Span_TimeEvent.t)
    (es : list trace.MessageEvent.t) (dA dM : Z) :
  timeEvents (recordDropped dA dM
                (pushEvents (pushEvents None annotations) (messageEvent <$> es)))
  = annotations ++ (messageEvent <$> es).
Proof.
  destruct (pushEvents_spec annotations None) as (HtA & HaA & HmA & _).
  destruct (pushEvents_spec (messageEvent <$> es) (pushEvents None annotations))
    as (HtM & HaM & HmM & _).
  destruct (recordDropped_spec dA dM
              (pushEvents (pushEvents None annotations) (messageEvent <$> es)))
    as (Ht & _).
  { now rewrite HaM, HaA. }
  { now rewrite HmM, HmA. }
  rewrite Ht, HtM, HtA. reflexivity.
Qed.

Lemma annotationEvent_inv (a : trace.Annotation.t) (event : Span_TimeEvent.t) :
  annotationEvent a = Ok event ->
  exists (description : TruncatableString.t) (attributes : option Span_Attributes.t),
    trunc (trace.Annotation.Message a) 256 = Ok description
    /\ copyAttributes None (trace.Annotation.Attributes a) = Ok attributes
    /\ event = {| Span_TimeEvent.Time := Some (timestampProto (trace.Annotation.Time a));
                  Span_TimeEvent.Value :=
                    Span_TimeEvent.Annotation_
                      {| Span_TimeEvent_Annotation.Description := Some description;
                         Span_TimeEvent_Annotation.Attributes := attributes |} |}.
Proof.
  unfold annotationEvent. intros Hevent.
  destruct (trunc (trace.Annotation.Message a) 256) as [d| |]; try discriminate Hevent.
  destruct (copyAttributes None (trace.Annotation.Attributes a)) as [attrs| |];
    try discriminate Hevent.
  cbn in Hevent. injection Hevent as <-. eauto.
Qed.

Lemma copyAttributes_fresh_count (in_ : gmap gostring trace.AttrValue)
    (attributes : option Span_Attributes.t) :
  copyAttributes None in_ = Ok attributes ->
  Z.of_nat (size (filter rejected in_)) <= MaxInt32 ->
  droppedAttributes attributes = Z.of_nat (size (filter rejected in_)).
Proof.
  intros Hrun Hfit. destruct (decide (in_ = ∅)) as [->|Hne].
  - rewrite copyAttributes_empty in Hrun by done. injection Hrun as <-.
    now rewrite map_filter_empty, map_size_empty.
  - destruct (copyAttributes_spec None in_ Hne) as (m' & Hrun' & _).
    rewrite Hrun' in Hrun. injection Hrun as <-. cbn.
    apply int32_id. unfold MinInt32. lia.
Qed.

(** X18.  The annotation events of the result are built from the first 32
    annotations, one by one: each carries the time of its annotation, the
    message truncated to 256 bytes, and an attributes container filled from
    the attributes of that annotation alone, whose dropped count is the
    number of that annotation's entries rejected for their key. *)
Theorem annotation_events_have_own_attributes (s : trace.SpanData.t) (projectID : gostring) :
  exists sp : Span.t,
    protoFromSpanData (Some s) projectID = Ok (Some sp)
    /\ Forall2
         (λ a event,
            exists (description : TruncatableString.t)
                   (attributes : option Span_Attributes.t),
              trunc (trace.Annotation.Message a) 256 = Ok description
              /\ copyAttributes None (trace.Annotation.Attributes a) = Ok attributes
              /\ event
                 = {| Span_TimeEvent.Time :=
                        Some (timestampProto (trace.Annotation.Time a));
                      Span_TimeEvent.Value :=
                        Span_TimeEvent.Annotation_
                          {| Span_TimeEvent_Annotation.Description := Some description;
                             Span_TimeEvent_Annotation.Attributes := attributes |} |}
              /\ len (TruncatableString.Value description) <= 256
              /\ (Z.of_nat (size (filter rejected (trace.Annotation.Attributes a)))
                    <= MaxInt32 ->
                  droppedAttributes attributes
                  = Z.of_nat (size (filter rejected (trace.Annotation.Attributes a)))))
         (take 32 (trace.SpanData.Annotations s))
         (filter isAnnotation (timeEvents (Span.TimeEvents sp))).
Proof.
  destruct (protoFromSpanData_fields s projectID)
    as (displayName & attributes & annotations & st & lks
        & HdisplayName & Hattributes & Hannotations & Hst & Hlks & Hrun). eexists. split; [exact Hrun|]. cbn [Span.TimeEvents].
  rewrite timeEvents_recorded.
  destruct (split_time_events annotations (take 128 (trace.SpanData.MessageEvents s)))
    as [-> _]; [eapply annotationEvents_kind; eassumption|].
  eapply Forall2_impl; [exact Hannotations|]. intros a event Hevent.
  destruct (annotationEvent_inv a event Hevent) as (d & attrs & Hd & Hattrs & ->).
  exists d, attrs. repeat split; try done.
  - now apply (trunc_len_le (trace.Annotation.Message a) 256).
  - now apply copyAttributes_fresh_count.
Qed.

Lemma Forall2_Forall_right {A B : Type} (R : A -> B -> Prop) (P : B -> Prop)
    (l : list A) (k : list B) :
  Forall2 R l k -> (forall x y, R x y -> P y) -> Forall P k.
Proof. induction 1; intros HP; constructor; eauto. Qed.

(** X19.  Every truncatable string of the result respects the limit of its
    field: the display name has at most 128 bytes and is a prefix of the
    name of the span, the description of every annotation event has at most
    256 bytes, and every stack frame has a function name of at most 1024
    bytes and a file name of at most 256 bytes. *)
Theorem output_strings_respect_their_limits (s : trace.SpanData.t) (projectID : gostring) :
  exists (sp : Span.t) (displayName : TruncatableString.t),
    protoFromSpanData (Some s) projectID = Ok (Some sp)
    /\ Span.DisplayName sp = Some displayName
    /\ len (TruncatableString.Value displayName) <= 128
    /\ TruncatableString.Value displayName `prefix_of` trace.SpanData.Name s
    /\ Forall
         (λ event,
            forall annotation, Span_TimeEvent.Value event = Span_TimeEvent.Annotation_ annotation ->
              exists description : TruncatableString.t,
                Span_TimeEvent_Annotation.Description annotation = Some description
                /\ len (TruncatableString.Value description) <= 256)
         (timeEvents (Span.TimeEvents sp))
    /\ Forall
         (λ f,
            exists functionName fileName : TruncatableString.t,
              StackTrace_StackFrame.FunctionName f = Some functionName
              /\ StackTrace_StackFrame.FileName f = Some fileName
              /\ len (TruncatableString.Value functionName) <= 1024
              /\ len (TruncatableString.Value fileName) <= 256)
         (stackFrames (Span.StackTrace sp)).
Proof.
  destruct (protoFromSpanData_fields s projectID)
    as (displayName & attributes & annotations & st & lks
        & HdisplayName & Hattributes & Hannotations & Hst & Hlks & Hrun). eexists. exists displayName. split; [exact Hrun|].
  cbn [Span.DisplayName Span.TimeEvents Span.StackTrace].
  split; [done|]. split; [now apply (trunc_len_le (trace.SpanData.Name s) 128)|].
  split.
  { destruct (trunc_spec (trace.SpanData.Name s) 128 ltac:(lia))
      as [[_ Hd]|[_ (k & _ & Hd & _)]];
      rewrite Hd in HdisplayName; injection HdisplayName as <-; cbn;
      [done|apply prefix_take]. }
  split.
  - rewrite timeEvents_recorded. apply Forall_app. split.
    + eapply Forall2_Forall_right; [exact Hannotations|].
      intros a event Hevent annotation Hvalue.
      destruct (annotationEvent_inv a event Hevent) as (d & attrs & Hd & _ & ->).
      cbn in Hvalue. injection Hvalue as <-. exists d. split; [done|].
      now apply (trunc_len_le (trace.Annotation.Message a) 256).
    + apply Forall_fmap, Forall_forall. intros e _ annotation Hvalue. discriminate Hvalue.
  - assert (Hframes : forall frames out,
              Forall2 (λ fr f, stackFrame fr = Ok f) frames out ->
              Forall (λ f, exists functionName fileName : TruncatableString.t,
                        StackTrace_StackFrame.FunctionName f = Some functionName
                        /\ StackTrace_StackFrame.FileName f = Some fileName
                        /\ len (TruncatableString.Value functionName) <= 1024
                        /\ len (TruncatableString.Value fileName) <= 256) out).
    { intros frames out Hout.
      eapply Forall2_Forall_right; [exact Hout|]. intros fr f Hf.
      destruct (stackFrame_inv fr f Hf) as (fn & file & Hfn & Hfile & ->).
      exists fn, file. repeat split.
      - now apply (trunc_len_le (runtime.Frame.Function fr) 1024).
      - now apply (trunc_len_le (runtime.Frame.File fr) 256). }
    destruct (trace.SpanData.StackTrace s) as [[|frame frames]|].
    + vm_compute in Hst. injection Hst as <-. cbn. repeat constructor.
      do 2 eexists. repeat split; vm_compute; discriminate.
    + destruct (stackTrace_spec (frame :: frames)) as (out & Hout & Hrun'); [done|].
      rewrite Hrun' in Hst. injection Hst as <-. cbn. eapply Hframes, Hout.
    + cbn in Hst. injection Hst as <-. constructor.
Qed.

(** ** What the encoder does not read *)

Lemma Forall2_functional {A B : Type} (f : A -> result B) (l : list A) (k k' : list B) :
  Forall2 (λ x y, f x = Ok y) l k -> Forall2 (λ x y, f x = Ok y) l k' -> k = k'.
Proof.
  intros H. revert k'. induction H as [|x y l k Hxy _ IH]; intros k' H'.
  - now inversion H'.
  - inversion H' as [|x' y' l' k'' Hxy' Hrest]; subst. f_equal; [congruence|now apply IH].
Qed.

Lemma stackTrace_prefix (pcs pcs' : list runtime.Frame.t) :
  take 128 pcs' = take 128 pcs -> length pcs' = length pcs ->
  stackTrace (Some pcs') = stackTrace (Some pcs).
Proof.
  intros Htake Hlen. destruct pcs as [|frame frames].
  - destruct pcs'; [done|discriminate Hlen].
  - destruct pcs' as [|frame' frames']; [discriminate Hlen|].
    destruct (stackTrace_spec (frame :: frames)) as (out & Hout & ->); [done|].
    destruct (stackTrace_spec (frame' :: frames')) as (out' & Hout' & ->); [done|].
    rewrite Htake in Hout'. rewrite (Forall2_functional _ _ _ _ Hout Hout').
    rewrite !len_drop. unfold len. now rewrite Hlen.
Qed.

(** X20.  The items beyond the caps are counted and not read: two spans
    that differ only in the annotations after the 32nd, the message events
    after the 128th and the frames after the 128th, and hold the same number
    of each, have the same encoding. *)
Theorem items_beyond_the_caps_are_not_read
    (s : trace.SpanData.t) (projectID : gostring)
    (annotations : list trace.Annotation.t) (messages : list trace.MessageEvent.t)
    (frames frames' : list runtime.Frame.t)
    (Hstack : trace.SpanData.StackTrace s = Some frames)
    (Hannotations : take 32 annotations = take 32 (trace.SpanData.Annotations s))
    (Hannotations' : length annotations = length (trace.SpanData.Annotations s))
    (Hmessages : take 128 messages = take 128 (trace.SpanData.MessageEvents s))
    (Hmessages' : length messages = length (trace.SpanData.MessageEvents s))
    (Hframes : take 128 frames' = take 128 frames)
    (Hframes' : length frames' = length frames) :
  protoFromSpanData (Some (withItems s annotations messages (Some frames'))) projectID
  = protoFromSpanData (Some s) projectID.
Proof.
  destruct (protoFromSpanData_fields s projectID)
    as (d & attrs & events & st & lks & Hd & Hattrs & Hevents & Hst & Hlks & ->).
  destruct (protoFromSpanData_fields (withItems s annotations messages (Some frames'))
              projectID)
    as (d' & attrs' & events' & st' & lks' & Hd' & Hattrs' & Hevents' & Hst' & Hlks' & ->).
  cbn [withItems trace.SpanData.SpanContext trace.SpanData.ParentSpanID trace.SpanData.Name
       trace.SpanData.StartTime trace.SpanData.EndTime trace.SpanData.Attributes
       trace.SpanData.Annotations trace.SpanData.MessageEvents trace.SpanData.Status
       trace.SpanData.Links trace.SpanData.HasRemoteParent trace.SpanData.StackTrace] in *.
  rewrite Hannotations in Hevents'.
  rewrite (Forall2_functional _ _ _ _ Hevents' Hevents).
  rewrite Hstack in Hst. rewrite (stackTrace_prefix frames frames') in Hst' by done.
  rewrite Hmessages, !len_drop. unfold len. rewrite Hannotations', Hmessages'.
  repeat f_equal; congruence.
Qed.

Lemma items_beyond_the_caps_are_not_read_witness :
  protoFromSpanData
    (Some (withItems spanCounted (take 32 (noteAt <$> seq 0 40) ++ (noteAt <$> seq 100 8))
                     (messageAt <$> seq 0 130)
                     (Some (take 128 (frameAt <$> seq 0 200) ++ (frameAt <$> seq 500 72)))))
    (lit "p")
  = protoFromSpanData (Some spanCounted) (lit "p").
Proof.
  apply (items_beyond_the_caps_are_not_read spanCounted (lit "p") _ _
           (frameAt <$> seq 0 200)); reflexivity.
Defined.

(** ** Counters and timestamps *)

(** X21.  The dropped-attribute count is a 32-bit counter that is
    incremented, not clipped: for every non-empty input it is the number of
    the entries rejected for their key, reduced to 32 bits with wrap-around,
    whatever count the container held before. *)
Theorem dropped_attribute_count_wraps
    (out : option Span_Attributes.t) (in_ : gmap gostring trace.AttrValue)
    (Hne : in_ <> ∅) :
  exists o : Span_Attributes.t,
    copyAttributes out in_ = Ok (Some o)
    /\ Span_Attributes.DroppedAttributesCount o
       = int32 (Z.of_nat (size (filter rejected in_)))
    /\ MinInt32 <= Span_Attributes.DroppedAttributesCount o <= MaxInt32.
Proof.
  destruct (copyAttributes_spec out in_ Hne) as (m' & Hrun & _).
  eexists. split; [exact Hrun|]. cbn. split; [done|]. apply int32_range.
Qed.

Lemma dropped_attribute_count_wraps_witness :
  exists o : Span_Attributes.t,
    copyAttributes
      (Some {| Span_Attributes.AttributeMap := None;
               Span_Attributes.DroppedAttributesCount := 5 |}) attrsMixed = Ok (Some o)
    /\ Span_Attributes.DroppedAttributesCount o = 1.
Proof.
  destruct (dropped_attribute_count_wraps
              (Some {| Span_Attributes.AttributeMap := None;
                       Span_Attributes.DroppedAttributesCount := 5 |}) attrsMixed)
    as (o & Hrun & Hcount & _).
  - apply map_size_non_empty_iff. vm_compute. lia.
  - exists o. split; [exact Hrun|]. rewrite Hcount. vm_compute. reflexivity.
Defined.

(** X22.  [timestampProto] keeps the seconds, and keeps the nanoseconds of
    every instant as they are (Go gives them in the range 0 to 999999999, far
    inside 32 bits); so the start and end times of the result are those of
    the span, and instants that differ get timestamps that differ. *)
Theorem timestamps_are_kept (s : trace.SpanData.t) (projectID : gostring)
    (Hstart : 0 <= time.Time.Nanosecond (trace.SpanData.StartTime s) <= 999999999)
    (Hend : 0 <= time.Time.Nanosecond (trace.SpanData.EndTime s) <= 999999999) :
  exists sp : Span.t,
    protoFromSpanData (Some s) projectID = Ok (Some sp)
    /\ Span.StartTime sp
       = Some {| timestamppb.Timestamp.Seconds := time.Time.Unix (trace.SpanData.StartTime s);
                 timestamppb.Timestamp.Nanos :=
                   time.Time.Nanosecond (trace.SpanData.StartTime s) |}
    /\ Span.EndTime sp
       = Some {| timestamppb.Timestamp.Seconds := time.Time.Unix (trace.SpanData.EndTime s);
                 timestamppb.Timestamp.Nanos :=
                   time.Time.Nanosecond (trace.SpanData.EndTime s) |}
    /\ (forall t t' : time.Time.t,
          0 <= time.Time.Nanosecond t <= 999999999 ->
          0 <= time.Time.Nanosecond t' <= 999999999 ->
          timestampProto t = timestampProto t' -> t = t').
Proof.
  destruct (protoFromSpanData_fields s projectID)
    as (displayName & attributes & annotations & st & lks
        & HdisplayName & Hattributes & Hannotations & Hst & Hlks & Hrun). eexists. split; [exact Hrun|]. cbn [Span.StartTime Span.EndTime].
  unfold timestampProto. rewrite !int32_id by (unfold MinInt32, MaxInt32; lia).
  split; [done|]. split; [done|].
  intros [unix ns] [unix' ns'] Hns Hns'. cbn in *.
  rewrite !int32_id by (unfold MinInt32, MaxInt32; lia). now intros [= -> ->].
Qed.

Lemma timestamps_are_kept_witness :
  exists sp : Span.t,
    protoFromSpanData (Some (spanWith ∅ [] [] None)) (lit "p") = Ok (Some sp)
    /\ Span.StartTime sp
       = Some {| timestamppb.Timestamp.Seconds := 1; timestamppb.Timestamp.Nanos := 0 |}.
Proof.
  destruct (timestamps_are_kept (spanWith ∅ [] [] None) (lit "p"))
    as (sp & Hrun & Hstart & _); [cbn; lia|cbn; lia|].
  exists sp. split; [exact Hrun|]. exact Hstart.
Defined.
